(** * skillkit: structural analysis of a skill package

    A shallow embedding of [skills/skill-improver/scripts/analyze_skill.py]:
    [parse_frontmatter], [extract_markdown_links], [analyze_skill] and
    [format_report], together with the fragments of the Python runtime they
    call ([str] methods, [re] on the patterns of the script, [pathlib]
    names, [str()] of a YAML value).

    Conventions.
    - A Python [str] is a [string]; one [ascii] stands for one character, so
      the model covers text whose code points are below 256.
    - [yaml.safe_load] is not part of the script: it is a parameter that
      returns a value, raises [yaml.YAMLError], the one exception
      [parse_frontmatter] handles, or raises something else, which nothing
      handles.
    - A block of [analyze_skill] appends to the list [results] or raises; an
      exception nothing catches ends the analysis without a result.
    - The file system is read-only input: the tree of entries below the
      package directory, each of the kind the script can tell apart, and an
      oracle for [exists()] on a link target, a call that can itself
      raise.  The directories of the tree can be listed and searched by
      the user who runs the script. *)

From Stdlib Require Import String Ascii List Bool Arith ZArith Lia DecimalString.
Import ListNotations.
Open Scope list_scope.
Open Scope string_scope.
Set Warnings "-register-all".

(** ** Characters and strings of the Python runtime *)

Definition LF : ascii := "010"%char.
Definition CR : ascii := "013"%char.
Definition DQUOTE : ascii := "034"%char.
Definition nl : string := String LF "".

Definition char_in (lo hi c : ascii) : bool :=
  Nat.leb (nat_of_ascii lo) (nat_of_ascii c) && Nat.leb (nat_of_ascii c) (nat_of_ascii hi).

Definition code_in (lo hi : nat) (c : ascii) : bool :=
  Nat.leb lo (nat_of_ascii c) && Nat.leb (nat_of_ascii c) hi.

(** [s.startswith(p)] *)
Definition startswith (s p : string) : bool := prefix p s.

(** [s.startswith((p1, p2, ...))] *)
Definition startswith_any (s : string) (ps : list string) : bool :=
  existsb (startswith s) ps.

(** [sep.join(l)] *)
Definition join (sep : string) (l : list string) : string := String.concat sep l.

(** [s[n:]] *)
Fixpoint drop (n : nat) (s : string) : string :=
  match n, s with
  | S k, String _ r => drop k r
  | _, _ => s
  end.

(** [str(n)] for a length or a count. *)
Definition str_of_nat (n : nat) : string := NilEmpty.string_of_uint (Nat.to_uint n).

(** [str(z)] for an [int]. *)
Definition str_of_Z (z : Z) : string := NilZero.string_of_int (Z.to_int z).

(** [s.partition(pat)] restricted to the case of a hit: the text before the
    first occurrence of [pat] and the text after it. *)
Fixpoint partition_at (pat s : string) : option (string * string) :=
  if prefix pat s then Some ("", drop (String.length pat) s)
  else match s with
       | "" => None
       | String c r =>
           match partition_at pat r with
           | Some (b, a) => Some (String c b, a)
           | None => None
           end
       end.

(** The longest prefix of characters satisfying [p], and the rest. *)
Fixpoint span (p : ascii -> bool) (s : string) : string * string :=
  match s with
  | "" => ("", "")
  | String c r =>
      if p c then let (a, b) := span p r in (String c a, b) else ("", s)
  end.

(** [str.isspace] on one character: the white space [str.split()] cuts at. *)
Definition isspace (c : ascii) : bool :=
  code_in 9 13 c || code_in 28 32 c || Nat.eqb (nat_of_ascii c) 133 || Nat.eqb (nat_of_ascii c) 160.

(** [s.split()]: the maximal runs of characters that are not white space. *)
Fixpoint split_ws (s : string) : list string :=
  match s with
  | "" => []
  | String c r =>
      if isspace c then split_ws r
      else match r with
           | "" => [String c ""]
           | String c' _ =>
               if isspace c' then String c "" :: split_ws r
               else match split_ws r with
                    | w :: ws => String c w :: ws
                    | [] => [String c ""]
                    end
           end
  end.

(** The line boundaries of [str.splitlines]. *)
Definition is_linebreak (c : ascii) : bool :=
  code_in 10 13 c || code_in 28 30 c || Nat.eqb (nat_of_ascii c) 133.

(** [s.splitlines()]: a carriage return followed by a line feed is one
    boundary, and a final boundary opens no further line. *)
Fixpoint splitlines (s : string) : list string :=
  match s with
  | "" => []
  | String c r =>
      if is_linebreak c then
        "" :: match r with
              | String c' r' =>
                  if Ascii.eqb c CR && Ascii.eqb c' LF then splitlines r' else splitlines r
              | "" => []
              end
      else match splitlines r with
           | l :: ls => String c l :: ls
           | [] => [String c ""]
           end
  end.

(** [sorted(l)] on strings: insertion sort by code points. *)
Fixpoint insert_sorted (x : string) (l : list string) : list string :=
  match l with
  | [] => [x]
  | y :: t => if String.leb x y then x :: l else y :: insert_sorted x t
  end.

Definition sorted (l : list string) : list string := fold_right insert_sorted [] l.

(** [x in l] for strings. *)
Definition mem (x : string) (l : list string) : bool := existsb (String.eqb x) l.

(** A Python [set] built from a list, kept in first-seen order. *)
Fixpoint dedup (l : list string) : list string :=
  match l with
  | [] => []
  | x :: t => x :: filter (fun y => negb (String.eqb x y)) (dedup t)
  end.

(** ** [pathlib] and [os.path] names *)

(** The text of [s] cut at every [sep]. *)
Fixpoint split_on (sep : ascii) (s : string) : list string :=
  match s with
  | "" => [""]
  | String c r =>
      if Ascii.eqb c sep then "" :: split_on sep r
      else match split_on sep r with
           | l :: ls => String c l :: ls
           | [] => [String c ""]
           end
  end.

(** [Path(p).parts] without the root: empty components and [.] are dropped. *)
Definition path_parts (p : string) : list string :=
  filter (fun c => negb (String.eqb c "") && negb (String.eqb c ".")) (split_on "/" p).

(** [Path(p).name] *)
Definition path_name (p : string) : string := last (path_parts p) "".

(** [os.path.basename(p)]: the text after the last slash. *)
Definition basename (p : string) : string := last (split_on "/" p) "".

(** ** The regular expressions of the script *)

(** How [re.sub] and [re.findall] walk a text: the pattern is tried at every
    position from the left; a hit of [n] characters is reported and the walk
    resumes after it, a miss keeps the character.  [try] returns the hit's
    payload and its length, which is at least one for the patterns below;
    [skip] counts the characters of the current hit still to be passed. *)
Fixpoint re_scan {A : Type} (try : string -> option (A * nat)) (skip : nat) (s : string)
  : list (ascii + A) :=
  match s with
  | "" => []
  | String c r =>
      match skip with
      | S k => re_scan try k r
      | O =>
          match try s with
          | Some (a, n) => inr a :: re_scan try (pred n) r
          | None => inl c :: re_scan try 0 r
          end
      end
  end.

(** The characters a scan kept, as a string again. *)
Fixpoint kept {A : Type} (l : list (ascii + A)) : string :=
  match l with
  | [] => ""
  | inl c :: t => String c (kept t)
  | inr _ :: t => kept t
  end.

(** The hits of a scan. *)
Fixpoint hits {A : Type} (l : list (ascii + A)) : list A :=
  match l with
  | [] => []
  | inl _ :: t => hits t
  | inr a :: t => a :: hits t
  end.

Definition FENCE : string := "```".

(** The fence pattern of [extract_markdown_links] with [re.DOTALL], tried at
    the head of [s]: an opening fence and the nearest closing fence after
    it. *)
Definition fence_at (s : string) : option (unit * nat) :=
  if startswith s FENCE then
    match partition_at FENCE (drop 3 s) with
    | Some (inside, _) => Some (tt, 3 + String.length inside + 3)
    | None => None
    end
  else None.

(** The link pattern of [extract_markdown_links] tried at the head of [s]:
    an opening bracket, a text free of closing brackets, a closing bracket
    and an opening parenthesis, a non-empty href free of closing
    parentheses, a closing parenthesis.  Both classes are greedy and exclude
    the character that must follow them, so the first attempt is the only
    one. *)
Definition link_at (s : string) : option ((string * string) * nat) :=
  match s with
  | String "[" r =>
      let (text, r1) := span (fun c => negb (Ascii.eqb c "]")) r in
      match r1 with
      | String "]" (String "(" r2) =>
          let (href, r3) := span (fun c => negb (Ascii.eqb c ")")) r2 in
          match href, r3 with
          | String _ _, String ")" _ =>
              Some ((text, href), 1 + String.length text + 2 + String.length href + 1)
          | _, _ => None
          end
      | _ => None
      end
  | _ => None
  end.

(** [extract_markdown_links(content)] *)
Definition extract_markdown_links (content : string) : list (string * string) :=
  let stripped := kept (re_scan fence_at 0 content) in
  hits (re_scan link_at 0 stripped).

(** The loop that strips leading comment lines, shared by
    [parse_frontmatter] and the body derivation.  [line] is the text from
    the [#] that opens the current line; [s] is what is left of that line.
    When the line has no line feed the loop breaks and [line] is kept. *)
Fixpoint skip_comment_line (line s : string) : string :=
  match s with
  | "" => line
  | String c r =>
      if Ascii.eqb c LF then
        (if startswith r "#" then skip_comment_line r r else r)
      else skip_comment_line line r
  end.

Definition strip_leading_comments (content : string) : string :=
  if startswith content "#" then skip_comment_line content content else content.

Definition DELIM_OPEN : string := "---" ++ nl.
Definition DELIM_CLOSE : string := nl ++ "---".

(** The [re.match] of [parse_frontmatter] with [re.DOTALL]: the opening
    delimiter line, then the shortest text followed by a line feed and three
    dashes.  The result is group 1, the text in between. *)
Definition match_frontmatter (stripped : string) : option string :=
  if startswith stripped DELIM_OPEN then
    match partition_at DELIM_CLOSE (drop 4 stripped) with
    | Some (block, _) => Some block
    | None => None
    end
  else None.

(** The [re.match] of the body derivation with [re.DOTALL]: as above, then
    one optional line feed.  The result is group 1, everything after it. *)
Definition match_body (body_content : string) : option string :=
  if startswith body_content DELIM_OPEN then
    match partition_at DELIM_CLOSE (drop 4 body_content) with
    | Some (_, String c rest) => Some (if Ascii.eqb c LF then rest else String c rest)
    | Some (_, "") => Some ""
    | None => None
    end
  else None.

(** The kebab-case pattern is one or more groups of [[a-z0-9]] joined by
    single hyphens; its recogniser has three states. *)
Inductive kebab_state : Type := GroupStart | InGroup | AfterHyphen.

Definition is_lower_alnum (c : ascii) : bool := char_in "a" "z" c || char_in "0" "9" c.

(** [re.match] of the kebab-case pattern on [s]: the final [$] holds at the
    end of the text and also just before a line feed that ends it. *)
Fixpoint kebab_from (st : kebab_state) (s : string) : bool :=
  match s with
  | "" => match st with InGroup => true | _ => false end
  | String c r =>
      if is_lower_alnum c then kebab_from InGroup r
      else match st with
           | InGroup =>
               if Ascii.eqb c "-" then kebab_from AfterHyphen r
               else Ascii.eqb c LF && String.eqb r ""
           | _ => false
           end
  end.

Definition match_kebab (s : string) : bool := kebab_from GroupStart s.

(** ** YAML values as Python objects *)

(** What [yaml.safe_load] builds, as far as the script looks at it: [None],
    [bool], [int], [str], [list] and [dict] (in insertion order).  Floats,
    dates and binary scalars are left out of the model, and so are integers
    too long for [str] where the interpreter limits the conversion. *)
Inductive yaml : Type :=
| YNull
| YBool (b : bool)
| YInt (z : Z)
| YStr (s : string)
| YSeq (items : list yaml)
| YMap (pairs : list (yaml * yaml)).

Definition dict : Type := list (yaml * yaml).

(** [bool(v)], as [not v] tests it. *)
Definition truthy (v : yaml) : bool :=
  match v with
  | YNull => false
  | YBool b => b
  | YInt z => negb (Z.eqb z 0)
  | YStr s => negb (String.eqb s "")
  | YSeq items => match items with [] => false | _ => true end
  | YMap pairs => match pairs with [] => false | _ => true end
  end.

Definition hex_digit (n : nat) : ascii :=
  if Nat.ltb n 10 then ascii_of_nat (48 + n) else ascii_of_nat (87 + n).

(** One character of [repr] of a [str] delimited by [quote]. *)
Definition repr_char (quote c : ascii) : string :=
  let n := nat_of_ascii c in
  if Ascii.eqb c quote || Ascii.eqb c "\" then String "\" (String c "")
  else if Nat.eqb n 9 then "\t"
  else if Nat.eqb n 10 then "\n"
  else if Nat.eqb n 13 then "\r"
  else if Nat.ltb n 32 || Nat.eqb n 127 || code_in 128 160 c || Nat.eqb n 173 then
    String "\" (String "x" (String (hex_digit (n / 16)) (String (hex_digit (n mod 16)) "")))
  else String c "".

Fixpoint has_char (c : ascii) (s : string) : bool :=
  match s with
  | "" => false
  | String c' r => Ascii.eqb c c' || has_char c r
  end.

Fixpoint repr_chars (quote : ascii) (s : string) : string :=
  match s with
  | "" => ""
  | String c r => repr_char quote c ++ repr_chars quote r
  end.

(** [repr(s)] for a [str]: single quotes, unless the text has a single quote
    and no double quote. *)
Definition repr_str (s : string) : string :=
  let quote := if has_char "'" s && negb (has_char DQUOTE s) then DQUOTE else "'"%char in
  String quote (repr_chars quote s ++ String quote "").

(** [repr(v)] *)
Fixpoint py_repr (v : yaml) : string :=
  match v with
  | YNull => "None"
  | YBool true => "True"
  | YBool false => "False"
  | YInt z => str_of_Z z
  | YStr s => repr_str s
  | YSeq items => "[" ++ join ", " (map py_repr items) ++ "]"
  | YMap pairs =>
      "{" ++ join ", " (map (fun kv => match kv with
                                       | (k, x) => py_repr k ++ ": " ++ py_repr x
                                       end) pairs) ++ "}"
  end.

(** [str(v)], which is also what an f-string renders. *)
Definition py_str (v : yaml) : string :=
  match v with
  | YStr s => s
  | _ => py_repr v
  end.

(** [fm.get(key, default)] for a [str] key. *)
Fixpoint dict_get (fm : dict) (key : string) (default : yaml) : yaml :=
  match fm with
  | [] => default
  | (YStr k, v) :: rest => if String.eqb k key then v else dict_get rest key default
  | _ :: rest => dict_get rest key default
  end.

(** [fm.keys()] *)
Definition dict_keys (fm : dict) : list yaml := map fst fm.

(** The keys as strings, when every one of them is a [str]. *)
Fixpoint str_keys (ks : list yaml) : option (list string) :=
  match ks with
  | [] => Some []
  | YStr k :: rest =>
      match str_keys rest with
      | Some l => Some (k :: l)
      | None => None
      end
  | _ :: _ => None
  end.

(** Exceptions no handler of the script catches.  [OSError] stands for the
    class and its subclasses other than [IsADirectoryError]. *)
Inductive exn : Type :=
| TypeError
| AttributeError
| IsADirectoryError
| UnicodeDecodeError
| OSError
| ValueError
| RecursionError.

(** The outcome of [yaml.safe_load]: a value, a [yaml.YAMLError] with the
    text [str(e)] renders, or an exception of another class, which the
    loader lets through ([ValueError] for a date such as [2001-99-99],
    [RecursionError] for a deep nesting). *)
Inductive load_outcome : Type :=
| Loaded (v : yaml)
| YAMLError (msg : string)
| Raised (e : exn).

(** ** Check records and the accumulator *)

Inductive status : Type := PASS | WARN | FAIL | INFO.

Definition status_str (st : status) : string :=
  match st with
  | PASS => "PASS"
  | WARN => "WARN"
  | FAIL => "FAIL"
  | INFO => "INFO"
  end.

(** The tuple [(section, check, status, detail)] of [record]. *)
Definition check_record : Type := string * string * status * string.

Definition rec_section (r : check_record) : string := fst (fst (fst r)).
Definition rec_check (r : check_record) : string := snd (fst (fst r)).
Definition rec_status (r : check_record) : status := snd (fst r).
Definition rec_detail (r : check_record) : string := snd r.

(** A block of [analyze_skill]: it reads and extends the list [results], or
    raises. *)
Definition M (A : Type) : Type := list check_record -> exn + (A * list check_record).

Definition ret {A : Type} (a : A) : M A := fun rs => inr (a, rs).

Definition bind {A B : Type} (m : M A) (k : A -> M B) : M B :=
  fun rs => match m rs with
            | inl e => inl e
            | inr (a, rs') => k a rs'
            end.

Definition raise {A : Type} (e : exn) : M A := fun _ => inl e.

(** [record(section, check, status, detail)]: [results.append(...)]. *)
Definition record (section check : string) (st : status) (detail : string) : M unit :=
  fun rs => inr (tt, (rs ++ [(section, check, st, detail)])%list).

Declare Scope check_scope.
Delimit Scope check_scope with check.
Notation "m1 ;; m2" := (bind m1 (fun _ => m2))
  (at level 61, right associativity) : check_scope.
Notation "x <- m1 ;; m2" := (bind m1 (fun x => m2))
  (at level 61, m1 at next level, right associativity) : check_scope.
Open Scope check_scope.

(** [for x in l: body(x)] *)
Fixpoint for_each {A : Type} (l : list A) (body : A -> M unit) : M unit :=
  match l with
  | [] => ret tt
  | x :: t => body x ;; for_each t body
  end.

(** ** The package on disk *)

(** A directory entry, by what the script can tell of it.
    - [File]: a regular file, or a symbolic link to one, with its execute
      permission and the text [read_text()] returns.
    - [Dir]: a directory with its entries in listing order.
    - [Unreadable]: a regular file [read_text()] fails on with [e]:
      [UnicodeDecodeError] when its bytes are no text, [OSError] when it
      may not be read.
    - [Special]: a FIFO, a socket or a device: it exists and is neither a
      regular file nor a directory; [read] is what reading it gives.
    - [Dangling]: a symbolic link whose target is missing: [exists()],
      [is_file()] and [is_dir()] are all false, and [os.walk] still lists
      it.
    - [DirLink]: a symbolic link to a directory with the entries
      [children]: [is_dir()] holds and [iterdir()] lists them, and
      [os.walk] does not go into it. *)
Inductive entry : Type :=
| File (name : string) (executable : bool) (text : string)
| Dir (name : string) (children : list entry)
| Unreadable (name : string) (executable : bool) (e : exn)
| Special (name : string) (read : exn + string)
| Dangling (name : string)
| DirLink (name : string) (children : list entry).

Definition entry_name (e : entry) : string :=
  match e with
  | File name _ _ => name
  | Dir name _ => name
  | Unreadable name _ _ => name
  | Special name _ => name
  | Dangling name => name
  | DirLink name _ => name
  end.

(** [p.exists()] for an entry of a directory. *)
Definition entry_exists (e : entry) : bool :=
  match e with
  | Dangling _ => false
  | _ => true
  end.

(** [p.is_dir()], with the entries [p.iterdir()] lists. *)
Definition dir_children (e : entry) : option (list entry) :=
  match e with
  | Dir _ children => Some children
  | DirLink _ children => Some children
  | _ => None
  end.

(** [p.is_file()], with [p.name] and [os.access(p, os.X_OK)]. *)
Definition regular_file (e : entry) : option (string * bool) :=
  match e with
  | File name x _ => Some (name, x)
  | Unreadable name x _ => Some (name, x)
  | _ => None
  end.

(** A directory [os.walk] goes into. *)
Definition is_real_dir (e : entry) : bool :=
  match e with
  | Dir _ _ => true
  | _ => false
  end.

(** [p.read_text()] *)
Definition read_text (e : entry) : exn + string :=
  match e with
  | File _ _ text => inr text
  | Unreadable _ _ err => inl err
  | Special _ read => read
  | Dir _ _ => inl IsADirectoryError
  | DirLink _ _ => inl IsADirectoryError
  | Dangling _ => inl OSError
  end.

(** What the script can observe of [skill_path]: the entries of the
    directory, and what [(skill_path / href).exists()] does: it answers, or
    it raises [OSError] when [stat] fails with an error [exists] does not
    swallow (a name longer than the file system allows, a directory that
    may not be searched); [None] stands for that. *)
Record package : Type := {
  entries : list entry;
  target_exists : string -> option bool
}.

Definition hidden (name : string) : bool := startswith name ".".

(** [skill_path / name], when the directory has such an entry. *)
Definition lookup (name : string) (es : list entry) : option entry :=
  find (fun e => String.eqb (entry_name e) name) es.

(** [d = skill_path / name] when [d.exists() and d.is_dir()]: the entries
    [d.iterdir()] lists. *)
Definition subdirectory (name : string) (es : list entry) : option (list entry) :=
  match lookup name es with
  | Some e => dir_children e
  | None => None
  end.

(** The visible regular files of one directory: [f.name] for [f] in
    [iterdir()] with [f.is_file()], hidden names left out. *)
Fixpoint visible_files (es : list entry) : list (string * bool) :=
  match es with
  | [] => []
  | e :: rest =>
      match regular_file e with
      | Some (name, x) =>
          if hidden name then visible_files rest else (name, x) :: visible_files rest
      | None => visible_files rest
      end
  end.

(** The [files] of one step of [os.walk], hidden names left out: every
    entry that is not a directory, regular file or not. *)
Definition visible_nondirs (es : list entry) : list string :=
  map entry_name
      (filter (fun e => match dir_children e with
                        | Some _ => false
                        | None => negb (hidden (entry_name e))
                        end) es).

(** The files [os.walk] reaches below the directory entry [e], as paths
    relative to the package; [rel] is the path of the directory holding [e].
    A hidden directory is pruned, a directory lists its own files first, and
    a link to a directory is not followed. *)
Fixpoint walk_dir (rel : string) (e : entry) : list string :=
  match e with
  | Dir name children =>
      if hidden name then []
      else
        let here := rel ++ name ++ "/" in
        List.app (map (fun f => here ++ f) (visible_nondirs children))
                 (flat_map (walk_dir here) children)
  | _ => []
  end.

(** [all_files] of [analyze_skill]. *)
Definition walk (es : list entry) : list string :=
  List.app (visible_nondirs es) (flat_map (walk_dir "") es).

Definition ALLOWED : list string :=
  ["name"; "description"; "license"; "allowed-tools"; "metadata"; "compatibility"].

Definition EXTRANEOUS : list string :=
  ["README.md"; "INSTALLATION_GUIDE.md"; "QUICK_REFERENCE.md"; "CHANGELOG.md";
   "CONTRIBUTING.md"; "SETUP.md"].

Definition EXTERNAL : list string := ["http://"; "https://"; "#"; "mailto:"].

(** ** The script *)

Section Script.

Variable yaml_safe_load : string -> load_outcome.

(** [parse_frontmatter(content)]: the pair [(fm, err)] it returns, or the
    exception of the loader that its [except yaml.YAMLError] lets through. *)
Definition parse_frontmatter (content : string) : exn + (option dict * option string) :=
  let stripped := strip_leading_comments content in
  if negb (startswith stripped "---") then inr (None, Some "No YAML frontmatter found")
  else
    match match_frontmatter stripped with
    | None => inr (None, Some "Invalid frontmatter format")
    | Some block =>
        match yaml_safe_load block with
        | Loaded (YMap fm) => inr (Some fm, None)
        | Loaded _ => inr (None, Some "Frontmatter must be a YAML dictionary")
        | YAMLError msg => inr (None, Some ("Invalid YAML: " ++ msg))
        | Raised e => inl e
        end
    end.

(** [set(fm.keys()) - ALLOWED] *)
Definition unexpected_keys (fm : dict) : list yaml :=
  filter (fun k => match k with
                   | YStr s => negb (mem s ALLOWED)
                   | _ => true
                   end) (dict_keys fm).

(** The unexpected-keys check.  [sorted] or [join] raises [TypeError] as
    soon as one of the unexpected keys is not a [str]. *)
Definition check_unexpected (fm : dict) : M unit :=
  match unexpected_keys fm with
  | [] => record "FRONTMATTER" "No unexpected keys" PASS ""
  | unexpected =>
      match str_keys unexpected with
      | Some ks =>
          record "FRONTMATTER" "No unexpected keys" WARN
                 ("Unexpected: " ++ join ", " (sorted (dedup ks)))
      | None => raise TypeError
      end
  end.

(** The name check. *)
Definition check_name (fm : dict) : M unit :=
  let name := dict_get fm "name" (YStr "") in
  if negb (truthy name) then
    record "FRONTMATTER" "Name present" FAIL "Missing 'name' field"
  else if negb (match_kebab (py_str name)) then
    record "FRONTMATTER" "Name format" FAIL ("'" ++ py_str name ++ "' is not valid kebab-case")
  else if Nat.ltb 64 (String.length (py_str name)) then
    record "FRONTMATTER" "Name length" FAIL
           (str_of_nat (String.length (py_str name)) ++ " chars (max 64)")
  else record "FRONTMATTER" "Name valid" PASS (py_str name).

(** The description check. *)
Definition check_description (fm : dict) : M unit :=
  let desc := dict_get fm "description" (YStr "") in
  if negb (truthy desc) then
    record "FRONTMATTER" "Description present" FAIL "Missing 'description' field"
  else
    let desc_len := String.length (py_str desc) in
    if Nat.ltb desc_len 50 then
      record "FRONTMATTER" "Description length" WARN
             (str_of_nat desc_len ++ " chars (recommend >= 50)")
    else if Nat.ltb 1024 desc_len then
      record "FRONTMATTER" "Description length" FAIL
             (str_of_nat desc_len ++ " chars (max 1024)")
    else record "FRONTMATTER" "Description length" PASS (str_of_nat desc_len ++ " chars").

(** [if err:] on the second component of [parse_frontmatter]. *)
Definition err_set (err : option string) : bool :=
  match err with
  | Some e => negb (String.eqb e "")
  | None => false
  end.

(** The front-matter block: the field checks sit in the [else] branch. *)
Definition check_frontmatter (content : string) : M unit :=
  match parse_frontmatter content with
  | inl e => raise e
  | inr (fm, err) =>
      if err_set err then
        record "FRONTMATTER" "Valid frontmatter" FAIL
               (match err with Some e => e | None => "" end)
      else
        record "FRONTMATTER" "Valid frontmatter" PASS "" ;;
        match fm with
        | None => raise AttributeError
        | Some fm =>
            check_unexpected fm ;;
            check_name fm ;;
            check_description fm
        end
  end.

(** [len(content.splitlines())] *)
Definition line_count (content : string) : nat := List.length (splitlines content).

(** The line-count block. *)
Definition check_line_count (content : string) : M unit :=
  if Nat.ltb 500 (line_count content) then
    record "SIZE" "SKILL.md line count" WARN
           (str_of_nat (line_count content) ++ " lines (recommend <= 500)")
  else record "SIZE" "SKILL.md line count" PASS (str_of_nat (line_count content) ++ " lines").

(** [body]: what follows the front-matter block, or the whole document. *)
Definition body_of (content : string) : string :=
  match match_body (strip_leading_comments content) with
  | Some b => b
  | None => content
  end.

(** [len(body.split())] *)
Definition word_count (body : string) : nat := List.length (split_ws body).

(** The word-count block. *)
Definition check_word_count (body : string) : M unit :=
  if Nat.ltb 5000 (word_count body) then
    record "SIZE" "Body word count" WARN
           (str_of_nat (word_count body) ++ " words (recommend <= 5000)")
  else record "SIZE" "Body word count" PASS (str_of_nat (word_count body) ++ " words").

(** [dirs_present]: the first component of every path with more than one. *)
Definition dirs_present (all_files : list string) : list string :=
  dedup (flat_map (fun f => match path_parts f with
                            | d :: _ :: _ => [d]
                            | _ => []
                            end) all_files).

(** The file-structure block. *)
Definition check_files (all_files : list string) : M unit :=
  record "FILES" "Directories" INFO
         (match dirs_present all_files with
          | [] => "none"
          | ds => join ", " (sorted ds)
          end) ;;
  record "FILES" "Total files" INFO (str_of_nat (List.length all_files)) ;;
  match filter (fun f => mem (basename f) EXTRANEOUS) all_files with
  | [] => record "FILES" "Extraneous files" PASS "none detected"
  | found_extraneous => record "FILES" "Extraneous files" WARN (join ", " found_extraneous)
  end.

(** [href.startswith(("http://", "https://", "#", "mailto:"))] *)
Definition is_external (href : string) : bool := startswith_any href EXTERNAL.

(** [relative_links] *)
Definition relative_links (links : list (string * string)) : list (string * string) :=
  filter (fun l => negb (is_external (snd l))) links.

(** One turn of the loop over [relative_links]: [target.exists()] raises,
    or [valid_links] is counted up, or the href is appended to
    [broken_links]. *)
Definition link_step (pkg : package) (acc : nat * list string) (l : string * string)
  : exn + (nat * list string) :=
  match target_exists pkg (snd l) with
  | None => inl OSError
  | Some true => inr (S (fst acc), snd acc)
  | Some false => inr (fst acc, List.app (snd acc) [snd l])
  end.

(** The loop from the values [acc] of [valid_links] and [broken_links]. *)
Fixpoint link_fold (pkg : package) (rel : list (string * string)) (acc : nat * list string)
  : exn + (nat * list string) :=
  match rel with
  | [] => inr acc
  | l :: rest =>
      match link_step pkg acc l with
      | inl e => inl e
      | inr acc' => link_fold pkg rest acc'
      end
  end.

(** [valid_links] and [broken_links] when the loop is over, or the
    exception that left it. *)
Definition link_loop (pkg : package) (rel : list (string * string))
  : exn + (nat * list string) :=
  link_fold pkg rel (0, []).

(** The link-integrity block. *)
Definition check_links (pkg : package) (rel : list (string * string)) : M unit :=
  match rel with
  | [] => record "REFERENCES" "Link integrity" INFO "No internal links found"
  | _ =>
      match link_loop pkg rel with
      | inl e => raise e
      | inr (valid_links, []) =>
          record "REFERENCES" "Link integrity" PASS
                 (str_of_nat valid_links ++ "/" ++ str_of_nat (List.length rel)
                    ++ " links valid")
      | inr (_, broken) =>
          record "REFERENCES" "Link integrity" FAIL ("Broken: " ++ join ", " broken)
      end
  end.

(** [linked_basenames] *)
Definition linked_basenames (rel : list (string * string)) : list string :=
  map path_name (filter (fun h => startswith h "references/") (map snd rel)).

(** [unlinked] *)
Definition unlinked (ref_files : list string) (rel : list (string * string)) : list string :=
  filter (fun f => negb (mem f (linked_basenames rel))
                   && negb (mem ("references/" ++ f) (map snd rel))) ref_files.

(** The reference-directory block. *)
Definition check_references (pkg : package) (rel : list (string * string)) : M unit :=
  match subdirectory "references" (entries pkg) with
  | Some children =>
      let ref_files := map fst (visible_files children) in
      match unlinked ref_files rel with
      | [] => record "REFERENCES" "All references linked" PASS ""
      | l => record "REFERENCES" "Unlinked reference files" WARN (join ", " l)
      end
  | None => record "REFERENCES" "References directory" INFO "No references/ directory"
  end.

(** The scripts block. *)
Definition check_scripts (pkg : package) : M unit :=
  match subdirectory "scripts" (entries pkg) with
  | Some children =>
      let scripts := visible_files children in
      record "SCRIPTS" "Scripts found" INFO (str_of_nat (List.length scripts)) ;;
      for_each scripts (fun s =>
        if snd s then record "SCRIPTS" (fst s ++ " executable") PASS ""
        else record "SCRIPTS" (fst s ++ " executable") WARN "Not marked executable")
  | None => record "SCRIPTS" "Scripts directory" INFO "No scripts/ directory"
  end.

(** Everything [analyze_skill] does once [SKILL.md] is known to exist. *)
Definition analyze_document (pkg : package) (content : string) : M unit :=
  record "STRUCTURE" "SKILL.md exists" PASS "" ;;
  check_frontmatter content ;;
  check_line_count content ;;
  let body := body_of content in
  check_word_count body ;;
  check_files (walk (entries pkg)) ;;
  let rel := relative_links (extract_markdown_links body) in
  check_links pkg rel ;;
  check_references pkg rel ;;
  check_scripts pkg.

(** [analyze_skill(skill_path)]: the list it returns, or the exception that
    leaves it. *)
Definition analyze_skill (pkg : package) : exn + list check_record :=
  let run (m : M unit) := match m [] with
                          | inl e => inl e
                          | inr (_, results) => inr results
                          end in
  match lookup "SKILL.md" (entries pkg) with
  | None => run (record "STRUCTURE" "SKILL.md exists" FAIL "SKILL.md not found")
  | Some e =>
      if negb (entry_exists e) then
        run (record "STRUCTURE" "SKILL.md exists" FAIL "SKILL.md not found")
      else
        match read_text e with
        | inl err => run (record "STRUCTURE" "SKILL.md exists" PASS "" ;; raise err)
        | inr content => run (analyze_document pkg content)
        end
  end.

End Script.

(** ** The report *)

(** The variables of the loop of [format_report]. *)
Record report_state : Type := {
  lines : list string;
  current_section : option string;
  pass_count : nat;
  warn_count : nat;
  fail_count : nat
}.

(** [section != current_section] *)
Definition section_changed (section : string) (current : option string) : bool :=
  match current with
  | Some s => negb (String.eqb section s)
  | None => true
  end.

(** The line of one record. *)
Definition record_line (r : check_record) : string :=
  let detail_str := if String.eqb (rec_detail r) "" then "" else ": " ++ rec_detail r in
  "  " ++ rec_check r ++ ": " ++ status_str (rec_status r) ++ detail_str.

(** One turn of the loop. *)
Definition report_step (st : report_state) (r : check_record) : report_state :=
  let section := rec_section r in
  let header :=
    if section_changed section (current_section st) then
      List.app (match current_section st with Some _ => [""] | None => [] end) [section]
    else [] in
  {| lines := List.app (lines st) (List.app header [record_line r]);
     current_section := Some section;
     pass_count := match rec_status r with PASS => S (pass_count st) | _ => pass_count st end;
     warn_count := match rec_status r with WARN => S (warn_count st) | _ => warn_count st end;
     fail_count := match rec_status r with FAIL => S (fail_count st) | _ => fail_count st end |}.

Definition report_title (skill_path : string) : string :=
  "=== Skill Analysis: " ++ path_name skill_path ++ " ===".

Definition summary_line (fails warns passes : nat) : string :=
  "SUMMARY: " ++ str_of_nat fails ++ " FAIL, " ++ str_of_nat warns ++ " WARN, "
    ++ str_of_nat passes ++ " PASS".

(** The list [lines] of [format_report] just before it is joined. *)
Definition report_lines (skill_path : string) (results : list check_record) : list string :=
  let st := fold_left report_step results
              {| lines := [report_title skill_path; ""];
                 current_section := None;
                 pass_count := 0; warn_count := 0; fail_count := 0 |} in
  List.app (lines st) [""; summary_line (fail_count st) (warn_count st) (pass_count st)].

(** [format_report(skill_path, results)] *)
Definition format_report (skill_path : string) (results : list check_record) : string :=
  join nl (report_lines skill_path results).

(** ** The report as the specification words it *)

Definition in_section (s : string) (r : check_record) : bool := String.eqb (rec_section r) s.

(** The sections of a record list in first-seen order. *)
Definition sections_first_seen (results : list check_record) : list string :=
  dedup (map rec_section results).

(** One group per section in first-seen order, each with its records in
    emission order. *)
Definition groups (results : list check_record) : list (string * list check_record) :=
  map (fun s => (s, filter (in_section s) results)) (sections_first_seen results).

(** A block: the section's name, then one line per record. *)
Definition render_block (g : string * list check_record) : list string :=
  fst g :: map record_line (snd g).

(** Blocks separated by one blank line. *)
Fixpoint render_blocks (gs : list (string * list check_record)) : list string :=
  match gs with
  | [] => []
  | [g] => render_block g
  | g :: rest => List.app (render_block g) ("" :: render_blocks rest)
  end.

Definition status_eqb (a b : status) : bool :=
  match a, b with
  | PASS, PASS | WARN, WARN | FAIL, FAIL | INFO, INFO => true
  | _, _ => false
  end.

(** The number of records with status [st]. *)
Definition count_status (st : status) (results : list check_record) : nat :=
  List.length (filter (fun r => status_eqb (rec_status r) st) results).

(** The report that groups by section whatever the order of the records. *)
Definition grouped_report (skill_path : string) (results : list check_record) : string :=
  join nl (List.app (report_title skill_path :: "" :: render_blocks (groups results))
                    [""; summary_line (count_status FAIL results)
                                      (count_status WARN results)
                                      (count_status PASS results)]).

(** The blocks [format_report] itself opens: one per maximal run of
    consecutive records of one section. *)
Fixpoint runs (results : list check_record) : list (string * list check_record) :=
  match results with
  | [] => []
  | r :: rest =>
      match runs rest with
      | (s, g) :: tl =>
          if String.eqb (rec_section r) s then (s, r :: g) :: tl
          else (rec_section r, [r]) :: (s, g) :: tl
      | [] => [(rec_section r, [r])]
      end
  end.

(** The records of every section are contiguous: once the run of a record's
    section is over, that section does not come back. *)
Fixpoint drop_section (s : string) (results : list check_record) : list check_record :=
  match results with
  | r :: rest => if in_section s r then drop_section s rest else results
  | [] => []
  end.

Fixpoint contiguous (results : list check_record) : bool :=
  match results with
  | [] => true
  | r :: rest =>
      negb (existsb (in_section (rec_section r)) (drop_section (rec_section r) rest))
      && contiguous rest
  end.

(** ** What a block appends *)

(** [m] never raises and appends exactly [out] to the accumulated records. *)
Definition emits (m : M unit) (out : list check_record) : Prop :=
  forall rs, m rs = inr (tt, (rs ++ out)%list).


(** ** Vocabulary of the properties *)

(** An upper-case letter. *)
Definition is_upper (c : ascii) : bool := char_in "A" "Z" c.

(** [s] has the text [t] somewhere inside. *)
Definition contains (t s : string) : Prop := exists a b, s = a ++ t ++ b.

(** The section of the front-matter checks. *)
Definition FRONTMATTER : string := "FRONTMATTER".

(** The value the name check looks at: [fm.get("name", "")]. *)
Definition name_of (fm : dict) : yaml := dict_get fm "name" (YStr "").

(** The value the description check looks at. *)
Definition description_of (fm : dict) : yaml := dict_get fm "description" (YStr "").

(** The document has a front-matter block: after the leading comment lines
    comes the opening delimiter line and, somewhere later, a line feed
    followed by three dashes. *)
Definition delimited (stripped : string) : Prop :=
  exists block tail, stripped = DELIM_OPEN ++ block ++ DELIM_CLOSE ++ tail.





(** [n] copies of [s], one after the other. *)
Fixpoint repeat_text (n : nat) (s : string) : string :=
  match n with
  | O => ""
  | S k => s ++ repeat_text k s
  end.

(** A markdown link as it is written. *)
Definition link_markup (text href : string) : string :=
  "[" ++ text ++ "](" ++ href ++ ")".

Definition BACKTICK : ascii := "`"%char.

(** The target of [h] is probed and found. *)
Definition valid_href (pkg : package) (h : string) : bool :=
  match target_exists pkg h with
  | Some true => true
  | _ => false
  end.

(** The target of [h] is probed and found missing. *)
Definition broken_href (pkg : package) (h : string) : bool :=
  match target_exists pkg h with
  | Some false => true
  | _ => false
  end.

(** Probing the target of every one of [hrefs] gives an answer. *)
Definition probes_answer (pkg : package) (hrefs : list string) : Prop :=
  forall h, In h hrefs -> target_exists pkg h <> None.

(** A text of 256 characters, one more than a file name may have. *)
Definition overlong_href : string := repeat_text 256 "a".

(** A package whose document links a name the file system refuses:
    [stat] fails with ENAMETOOLONG, which [exists()] does not swallow. *)
Definition overlong_link_package : package :=
  {| entries := [File "SKILL.md" false ("See [x](" ++ overlong_href ++ ").")];
     target_exists := fun h => if Nat.ltb 255 (String.length h) then None else Some false |}.

(** [f] is linked from the links [links]: it is the last path component of
    a relative href that begins with [references/], or [references/f] is
    itself one of the hrefs. *)
Definition linked (links : list (string * string)) (f : string) : Prop :=
  (exists h, In h (map snd (relative_links links))
             /\ startswith h "references/" = true /\ path_name h = f)
  \/ In ("references/" ++ f) (map snd links).

(** The lines the loop of [format_report] appends from [current] on. *)
Fixpoint render_from (current : option string) (results : list check_record) : list string :=
  match results with
  | [] => []
  | r :: rest =>
      List.app
        (if section_changed (rec_section r) current then
           List.app (match current with Some _ => [""] | None => [] end) [rec_section r]
         else [])
        (record_line r :: render_from (Some (rec_section r)) rest)
  end.

(** What follows the first block. *)
Definition render_tail (gs : list (string * list check_record)) : list string :=
  match gs with
  | [] => []
  | _ => "" :: render_blocks gs
  end.

(** Every key of the mapping is a [str]. *)
Definition string_keyed (fm : dict) : Prop :=
  forall k, In k (dict_keys fm) -> exists s, k = YStr s.

(** A loader that reads every block as the one-item list [- a]. *)
Definition sequence_loader (block : string) : load_outcome := Loaded (YSeq [YStr "a"]).


(** A loader that reads every block as a mapping with a valid name and a
    description of 60 characters. *)
Definition mapping_loader (block : string) : load_outcome :=
  Loaded (YMap [(YStr "name", YStr "my-skill");
                (YStr "description",
                 YStr "A description of exactly sixty characters, for the example.~")]).

(** A minimal valid document: a name and a description of 60 characters. *)
Definition minimal_document : string :=
  "---" ++ nl ++ "name: my-skill" ++ nl
    ++ "description: A description of exactly sixty characters, for the example.~"
    ++ nl ++ "---" ++ nl ++ "Body text.".

(** A minimal valid package. *)
Definition minimal_package : package :=
  {| entries := [File "SKILL.md" false minimal_document];
     target_exists := fun _ => Some false |}.

(** A loader that reads every block as a mapping with the boolean key the
    YAML text [on: push] stands for. *)
Definition boolean_key_loader (block : string) : load_outcome :=
  Loaded (YMap [(YStr "name", YStr "demo"); (YBool true, YStr "push")]).

(** A package whose front matter has a key that is not a string. *)
Definition boolean_key_package : package :=
  {| entries := [File "SKILL.md" false
                      ("---" ++ nl ++ "name: demo" ++ nl ++ "on: push" ++ nl ++ "---" ++ nl)];
     target_exists := fun _ => Some false |}.

(** A loader that does on the block [when: 2001-99-99] what
    [yaml.safe_load] does: the scalar has the shape of a date, building the
    date fails, and [ValueError] comes out.  Other blocks are not looked
    at. *)
Definition date_loader (block : string) : load_outcome :=
  if String.eqb block "when: 2001-99-99" then Raised ValueError else Loaded (YMap []).

(** A document whose front matter holds a date with month 99. *)
Definition bad_date_document : string :=
  "---" ++ nl ++ "when: 2001-99-99" ++ nl ++ "---" ++ nl ++ "Body text.".

(** A package with that document. *)
Definition bad_date_package : package :=
  {| entries := [File "SKILL.md" false bad_date_document];
     target_exists := fun _ => Some false |}.

(** An empty directory. *)
Definition empty_package : package := {| entries := []; target_exists := fun _ => Some false |}.

From Stdlib Require Import Sorted.

(** ** The command line *)

(** How a run of the script ends: it exits with a status after printing
    [out], or an exception nothing catches ends it. *)
Inductive outcome : Type :=
| Exited (out : list string) (code : nat)
| Uncaught (e : exn).

Definition USAGE : string := "Usage: python analyze_skill.py <skill-directory>".

(** The [__main__] block.  [argv] is [sys.argv], [isdir] is
    [os.path.isdir] and [package_at] gives what the script finds at a
    path. *)
Definition main (yaml_safe_load : string -> load_outcome) (isdir : string -> bool)
           (package_at : string -> package) (argv : list string) : outcome :=
  match argv with
  | [_; skill_dir] =>
      if negb (isdir skill_dir) then
        Exited ["Error: '" ++ skill_dir ++ "' is not a directory"] 1
      else
        match analyze_skill yaml_safe_load (package_at skill_dir) with
        | inr results => Exited [format_report skill_dir results] 0
        | inl e => Uncaught e
        end
  | _ => Exited [USAGE] 1
  end.

(** ** Vocabulary of the further properties *)

(** A name a directory entry can have: not empty, not [.], no slash. *)
Definition valid_name (n : string) : Prop :=
  n <> "" /\ n <> "." /\ has_char "/" n = false.

(** [a] comes before [b], or is [b], in the order [sorted] uses. *)
Definition str_le (a b : string) : Prop := String.leb a b = true.

(** A front matter with two keys outside the allowed set. *)
Definition extra_keys_frontmatter : dict :=
  [(YStr "name", YStr "demo"); (YStr "version", YInt 2); (YStr "author", YStr "me")].

(** The file [name] is found at the relative path [p] below the entries
    [es] of the directory [rel]: it is an entry that is no directory (a
    regular file or not), it is reached through directories proper, not
    through links to directories, and neither its name nor the name of a
    directory on the way starts with a dot. *)
Inductive located : string -> list entry -> string -> string -> Prop :=
| located_here rel es e name :
    In e es -> dir_children e = None -> entry_name e = name -> hidden name = false ->
    located rel es (rel ++ name) name
| located_below rel es dname children p name :
    In (Dir dname children) es -> hidden dname = false ->
    located (rel ++ dname ++ "/") children p name ->
    located rel es p name.

(** Induction on an entry that reaches the entries of a directory. *)
Fixpoint entry_nested_ind (P : entry -> Prop)
         (Hleaf : forall e, is_real_dir e = false -> P e)
         (Hdir : forall name children, Forall P children -> P (Dir name children))
         (e : entry) : P e :=
  match e with
  | Dir name children =>
      Hdir name children
           ((fix all (l : list entry) : Forall P l :=
               match l with
               | [] => Forall_nil P
               | e' :: l' => Forall_cons e' (entry_nested_ind P Hleaf Hdir e') (all l')
               end) children)
  | File name x t => Hleaf (File name x t) eq_refl
  | Unreadable name x err => Hleaf (Unreadable name x err) eq_refl
  | Special name read => Hleaf (Special name read) eq_refl
  | Dangling name => Hleaf (Dangling name) eq_refl
  | DirLink name children => Hleaf (DirLink name children) eq_refl
  end.

(** A package with a hidden directory and a nested visible one. *)
Definition nested_entries : list entry :=
  [File "SKILL.md" false "";
   File ".gitignore" false "";
   Dir ".git" [File "README.md" false ""];
   Dir "empty" [];
   Dir "references" [File "guide.md" false ""; Dir "deep" [File "CHANGELOG.md" false ""]]].

(** [valid_name] as a test. *)
Definition valid_nameb (n : string) : bool :=
  negb (String.eqb n "") && negb (String.eqb n ".") && negb (has_char "/" n).

(** The names of an entry and of everything below it. *)
Fixpoint entry_names (e : entry) : list string :=
  match e with
  | Dir name children => name :: flat_map entry_names children
  | DirLink name children => name :: flat_map entry_names children
  | _ => [entry_name e]
  end.

(** Every entry of the tree has a name a file system allows. *)
Definition names_valid (es : list entry) : bool :=
  forallb valid_nameb (flat_map entry_names es).

(** The record of one script. *)
Definition script_record (s : string * bool) : check_record :=
  if snd s then ("SCRIPTS", fst s ++ " executable", PASS, "")
  else ("SCRIPTS", fst s ++ " executable", WARN, "Not marked executable").

(** A package with two scripts, a hidden file and a sub-directory in
    [scripts]. *)
Definition scripts_package : package :=
  {| entries := [File "SKILL.md" false "";
                 Dir "scripts" [File "run.sh" true ""; File ".env" false "";
                                Dir "lib" [File "util.py" false ""];
                                File "check.py" false ""]];
     target_exists := fun _ => Some false |}.

(** A group of a kebab-case name: one or more lower-case letters or
    digits. *)
Definition kebab_group (g : string) : Prop :=
  g <> "" /\ forall c, has_char c g = true -> is_lower_alnum c = true.

(** A kebab-case name: groups joined by single hyphens. *)
Inductive kebab : string -> Prop :=
| kebab_one g : kebab_group g -> kebab g
| kebab_more g s : kebab_group g -> kebab s -> kebab (g ++ "-" ++ s).

(** A kebab-case name, or one followed by a single line feed. *)
Definition kebab_line (s : string) : Prop := kebab s \/ exists p, s = p ++ nl /\ kebab p.

(** What may follow inside a group: more of the group, a hyphen and a
    name, or the end. *)
Inductive kebab_rest : string -> Prop :=
| rest_end : kebab_rest ""
| rest_line_feed : kebab_rest nl
| rest_hyphen s : kebab_line s -> kebab_rest ("-" ++ s)
| rest_char c s : is_lower_alnum c = true -> kebab_rest s -> kebab_rest (String c s).

(** * Properties *)

(** ** The accumulator *)

Lemma emits_record section check st detail :
  emits (record section check st detail) [(section, check, st, detail)].
Proof. intros rs. reflexivity. Qed.

Lemma emits_ret : emits (ret tt) [].
Proof. intros rs. unfold ret. now rewrite app_nil_r. Qed.

Lemma emits_bind (m1 m2 : M unit) o1 o2 :
  emits m1 o1 -> emits m2 o2 -> emits (m1 ;; m2) (o1 ++ o2)%list.
Proof.
  intros H1 H2 rs. unfold bind. rewrite H1, H2. now rewrite app_assoc.
Qed.

Lemma emits_unique (m : M unit) o1 o2 : emits m o1 -> emits m o2 -> o1 = o2.
Proof.
  intros H1 H2. specialize (H1 []). specialize (H2 []).
  rewrite H1 in H2. now inversion H2.
Qed.


(** ** Strings *)

Lemma prefix_app_l p q s : prefix (p ++ q) s = true -> prefix p s = true.
Proof.
  revert s. induction p as [|a p IH]; intros s H.
  - now destruct s.
  - destruct s as [|b s]; simpl in *; [discriminate|].
    destruct (ascii_dec a b); [now apply IH | discriminate].
Qed.

Lemma match_frontmatter_starts stripped block :
  match_frontmatter stripped = Some block -> startswith stripped "---" = true.
Proof.
  unfold match_frontmatter. intros H.
  destruct (startswith stripped DELIM_OPEN) eqn:E; [|discriminate].
  apply (prefix_app_l "---" nl). exact E.
Qed.

(** ** Finding a delimiter *)

Lemma prefix_drop pat s : prefix pat s = true -> s = pat ++ drop (String.length pat) s.
Proof.
  revert s. induction pat as [|a pat IH]; intros s H.
  - reflexivity.
  - destruct s as [|b s]; simpl in *; [discriminate|].
    destruct (ascii_dec a b); [|discriminate]. subst b. f_equal. now apply IH.
Qed.

Lemma prefix_of_app pat a : prefix pat (pat ++ a) = true.
Proof.
  induction pat as [|c pat IH]; simpl.
  - now destruct a.
  - destruct (ascii_dec c c); [exact IH | congruence].
Qed.

Lemma partition_at_unfold pat s :
  partition_at pat s =
  if prefix pat s then Some ("", drop (String.length pat) s)
  else match s with
       | "" => None
       | String c r =>
           match partition_at pat r with
           | Some (b, a) => Some (String c b, a)
           | None => None
           end
       end.
Proof. now destruct s. Qed.

Lemma partition_at_sound pat s b a :
  partition_at pat s = Some (b, a) -> s = b ++ pat ++ a.
Proof.
  revert b a. induction s as [|c r IH]; intros b a H;
    rewrite partition_at_unfold in H;
    destruct (prefix pat _) eqn:E.
  - inversion H; subst. now apply prefix_drop.
  - discriminate.
  - inversion H; subst. now apply prefix_drop.
  - destruct (partition_at pat r) as [[b' a']|] eqn:E'; [|discriminate].
    inversion H; subst. simpl. f_equal. now apply IH.
Qed.

(** The hit of [partition_at] is the first one. *)
Lemma partition_at_first pat s b a :
  partition_at pat s = Some (b, a) ->
  forall b' a', s = b' ++ pat ++ a' -> String.length b <= String.length b'.
Proof.
  revert b a. induction s as [|c r IH]; intros b a H b' a' Hs;
    rewrite partition_at_unfold in H;
    destruct (prefix pat _) eqn:E.
  - inversion H; subst. simpl. lia.
  - discriminate.
  - inversion H; subst. simpl. lia.
  - destruct (partition_at pat r) as [[b0 a0]|] eqn:E'; [|discriminate].
    inversion H; subst. destruct b' as [|c' b''].
    + simpl in Hs. rewrite Hs, prefix_of_app in E. discriminate.
    + simpl in Hs. inversion Hs; subst. simpl.
      apply le_n_S. now apply (IH b0 a eq_refl b'' a').
Qed.

Lemma partition_at_complete pat b a : partition_at pat (b ++ pat ++ a) <> None.
Proof.
  induction b as [|c b IH]; rewrite partition_at_unfold.
  - simpl. now rewrite prefix_of_app.
  - destruct (prefix pat _); [discriminate|]. simpl.
    destruct (partition_at pat (b ++ pat ++ a)) as [[b' a']|]; [discriminate|].
    now destruct IH.
Qed.

Lemma match_body_some stripped b :
  match_body stripped = Some b ->
  exists block tail,
    stripped = DELIM_OPEN ++ block ++ DELIM_CLOSE ++ tail
    /\ (tail = b \/ tail = nl ++ b)
    /\ (forall block' tail',
          stripped = DELIM_OPEN ++ block' ++ DELIM_CLOSE ++ tail' ->
          String.length block <= String.length block').
Proof.
  unfold match_body, startswith. intros H.
  destruct (prefix DELIM_OPEN stripped) eqn:P; [|discriminate].
  apply prefix_drop in P. change (String.length DELIM_OPEN) with 4 in P.
  destruct (partition_at DELIM_CLOSE (drop 4 stripped)) as [[block after]|] eqn:E;
    [|discriminate].
  pose proof (partition_at_first _ _ _ _ E) as Hfirst.
  apply partition_at_sound in E. rewrite E in P.
  exists block, after. split; [exact P|]. split.
  - destruct after as [|c rest].
    + left. now inversion H.
    + destruct (Ascii.eqb c LF) eqn:Ec; inversion H; subst.
      * apply Ascii.eqb_eq in Ec. subst c. now right.
      * now left.
  - intros block' tail' Hs. apply (Hfirst block' tail').
    rewrite Hs. reflexivity.
Qed.

Lemma match_body_none stripped : match_body stripped = None <-> ~ delimited stripped.
Proof.
  split.
  - intros H [block [tail Hd]]. unfold match_body, startswith in H.
    rewrite Hd in H. rewrite prefix_of_app in H.
    assert (D : drop 4 (DELIM_OPEN ++ block ++ DELIM_CLOSE ++ tail)
                = block ++ DELIM_CLOSE ++ tail) by reflexivity.
    rewrite D in H.
    pose proof (partition_at_complete DELIM_CLOSE block tail) as C.
    destruct (partition_at DELIM_CLOSE (block ++ DELIM_CLOSE ++ tail)) as [[x [|c y]]|];
      try discriminate. now destruct C.
  - intros H. destruct (match_body stripped) as [b|] eqn:E; [|reflexivity].
    destruct (match_body_some _ _ E) as [block [tail [Hd _]]].
    destruct H. now exists block, tail.
Qed.

Lemma append_nil_r (a : string) : a ++ "" = a.
Proof. induction a as [|x a IH]; simpl; [reflexivity | now rewrite IH]. Qed.

Lemma length_append_str (a b : string) :
  String.length (a ++ b) = String.length a + String.length b.
Proof. induction a as [|x a IH]; simpl; [reflexivity | now rewrite IH]. Qed.

Lemma append_assoc_str (a b c : string) : (a ++ b) ++ c = a ++ b ++ c.
Proof. induction a as [|x a IH]; simpl; [reflexivity | now rewrite IH]. Qed.

(** Two ways of cutting one text at the same place are the same. *)
Lemma append_same_length (a b x y : string) :
  a ++ x = b ++ y -> String.length a = String.length b -> a = b /\ x = y.
Proof.
  revert b. induction a as [|c a IH]; intros [|d b] H Hlen; try discriminate.
  - now split.
  - simpl in H. inversion H; subst d. simpl in Hlen.
    destruct (IH b) as [E1 E2]; [assumption | lia |]. now subst.
Qed.

(** On the first occurrence of the pattern, [partition_at] cuts there. *)
Lemma partition_at_exact pat b a :
  (forall b' a', b ++ pat ++ a = b' ++ pat ++ a' -> String.length b <= String.length b') ->
  partition_at pat (b ++ pat ++ a) = Some (b, a).
Proof.
  intros Hmin.
  destruct (partition_at pat (b ++ pat ++ a)) as [[b0 a0]|] eqn:E;
    [|now destruct (partition_at_complete pat b a)].
  pose proof (partition_at_first _ _ _ _ E b a eq_refl) as H1.
  pose proof (partition_at_sound _ _ _ _ E) as Hs.
  pose proof (Hmin b0 a0 Hs) as H2.
  destruct (append_same_length b b0 (pat ++ a) (pat ++ a0) Hs) as [Eb Er]; [lia|].
  destruct (append_same_length pat pat a a0 Er eq_refl) as [_ Ea]. now subst.
Qed.


(** The two delimiter patterns hit on the same documents. *)
Lemma match_frontmatter_body stripped :
  (match_frontmatter stripped = None <-> match_body stripped = None)
  /\ (forall block,
        match_frontmatter stripped = Some block ->
        exists tail b,
          stripped = DELIM_OPEN ++ block ++ DELIM_CLOSE ++ tail
          /\ match_body stripped = Some b /\ (tail = b \/ tail = nl ++ b)).
Proof.
  unfold match_frontmatter, match_body, startswith.
  destruct (prefix DELIM_OPEN stripped) eqn:P.
  - apply prefix_drop in P. change (String.length DELIM_OPEN) with 4 in P.
    destruct (partition_at DELIM_CLOSE (drop 4 stripped)) as [[block after]|] eqn:E.
    + split.
      * split; intros H; [discriminate | destruct after; discriminate].
      * intros block' Hb. inversion Hb; subst block'.
        apply partition_at_sound in E. rewrite E in P.
        destruct after as [|c rest].
        -- exists "", "". repeat split; [exact P | now left].
        -- destruct (Ascii.eqb c LF) eqn:Ec.
           ++ apply Ascii.eqb_eq in Ec. subst c.
              exists (String LF rest), rest. repeat split; [exact P | now right].
           ++ exists (String c rest), (String c rest). repeat split; [exact P | now left].
    + split; [split; reflexivity | discriminate].
  - split; [split; reflexivity | discriminate].
Qed.

(** On a delimited document the parser hands the text between the opening
    delimiter and the first closing delimiter to the loader. *)
Lemma match_frontmatter_delimited block tail :
  (forall block' tail',
      DELIM_OPEN ++ block ++ DELIM_CLOSE ++ tail = DELIM_OPEN ++ block' ++ DELIM_CLOSE ++ tail' ->
      String.length block <= String.length block') ->
  match_frontmatter (DELIM_OPEN ++ block ++ DELIM_CLOSE ++ tail) = Some block.
Proof.
  intros Hmin. unfold match_frontmatter, startswith. rewrite prefix_of_app.
  change (drop 4 (DELIM_OPEN ++ block ++ DELIM_CLOSE ++ tail))
    with (block ++ DELIM_CLOSE ++ tail).
  rewrite partition_at_exact; [reflexivity|].
  intros b' a' H. apply (Hmin b' a'). now rewrite H.
Qed.

Lemma match_frontmatter_none stripped :
  match_frontmatter stripped = None <-> ~ delimited stripped.
Proof.
  rewrite (proj1 (match_frontmatter_body stripped)). apply match_body_none.
Qed.

Section Properties.

Variable yaml_safe_load : string -> load_outcome.


(** ** Missing primary document *)

(** C1.  When the package directory has no entry [SKILL.md], [analyze_skill]
    returns the single record (STRUCTURE, "SKILL.md exists", FAIL,
    "SKILL.md not found") and nothing else, and the report of that list is
    the title, the STRUCTURE block with that one line, and the summary
    "SUMMARY: 1 FAIL, 0 WARN, 0 PASS". *)
Theorem missing_skill_md_short_circuits (pkg : package) (skill_path : string) :
  lookup "SKILL.md" (entries pkg) = None ->
  analyze_skill yaml_safe_load pkg = inr [("STRUCTURE", "SKILL.md exists", FAIL, "SKILL.md not found")]
  /\ format_report skill_path [("STRUCTURE", "SKILL.md exists", FAIL, "SKILL.md not found")]
     = join nl [report_title skill_path; "";
                "STRUCTURE";
                "  SKILL.md exists: FAIL: SKILL.md not found";
                "";
                "SUMMARY: 1 FAIL, 0 WARN, 0 PASS"].
Proof.
  intros Hmissing. split.
  - unfold analyze_skill. rewrite Hmissing. reflexivity.
  - reflexivity.
Qed.

(** ** The front-matter parser *)

(** The ways [parse_frontmatter] can end, by its own tests. *)
Lemma parse_frontmatter_cases content :
  let stripped := strip_leading_comments content in
  (startswith stripped "---" = false
     /\ parse_frontmatter yaml_safe_load content
        = inr (None, Some "No YAML frontmatter found"))
  \/ (startswith stripped "---" = true /\ match_frontmatter stripped = None
     /\ parse_frontmatter yaml_safe_load content
        = inr (None, Some "Invalid frontmatter format"))
  \/ (exists block, match_frontmatter stripped = Some block
     /\ parse_frontmatter yaml_safe_load content =
        match yaml_safe_load block with
        | Loaded (YMap fm) => inr (Some fm, None)
        | Loaded _ => inr (None, Some "Frontmatter must be a YAML dictionary")
        | YAMLError msg => inr (None, Some ("Invalid YAML: " ++ msg))
        | Raised e => inl e
        end).
Proof.
  intros stripped. unfold parse_frontmatter. fold stripped.
  destruct (startswith stripped "---") eqn:Hs; simpl.
  - destruct (match_frontmatter stripped) as [block|] eqn:Hm.
    + right. right. exists block. split; reflexivity.
    + right. left. repeat split; reflexivity.
  - left. split; reflexivity.
Qed.

(** What [parse_frontmatter] returns is a mapping and no error, or no
    mapping and a non-empty error; it raises what the loader raised on the
    block, and nothing else. *)
Lemma parse_frontmatter_outcomes content :
  (forall r, parse_frontmatter yaml_safe_load content = inr r ->
             (exists fm, r = (Some fm, None)) \/ (exists e, r = (None, Some e) /\ e <> ""))
  /\ (forall e, parse_frontmatter yaml_safe_load content = inl e <->
                exists block,
                  match_frontmatter (strip_leading_comments content) = Some block
                  /\ yaml_safe_load block = Raised e).
Proof.
  destruct (parse_frontmatter_cases content) as [[Hs H]|[[_ [Hm H]]|[block [Hm H]]]];
    rewrite H; split.
  - intros r E. inversion E. right. eexists. split; [reflexivity | discriminate].
  - intros e. split; [discriminate|]. intros [block [Hb _]].
    apply match_frontmatter_starts in Hb. congruence.
  - intros r E. inversion E. right. eexists. split; [reflexivity | discriminate].
  - intros e. split; [discriminate|]. intros [block [Hb _]]. congruence.
  - intros r E. destruct (yaml_safe_load block) as [v|msg|e0].
    + destruct v; inversion E;
        try (right; eexists; split; [reflexivity | discriminate]).
      left. eexists. reflexivity.
    + inversion E. right. eexists. split; [reflexivity | discriminate].
    + discriminate.
  - intros e. split.
    + intros E. exists block. split; [exact Hm|].
      destruct (yaml_safe_load block) as [v|msg|e0]; [destruct v| |]; try discriminate.
      now inversion E.
    + intros [block' [Hb Hl]]. assert (block' = block) by congruence. subst block'.
      now rewrite Hl.
Qed.

(** C3, as the code has it.  For every input text, [parse_frontmatter]
    returns a mapping and no error, or no mapping and a non-empty error
    text, or it raises.  When the block between the delimiters loads as a
    value that is not a mapping the error is "Frontmatter must be a YAML
    dictionary"; when the loader raises [yaml.YAMLError] with message [msg]
    the error is "Invalid YAML: " followed by [msg]; when it loads as a
    mapping, that mapping is returned.  The handler names [yaml.YAMLError]
    only: [parse_frontmatter] raises [e] exactly when the document has a
    delimited block and the loader raises [e], of another class, on it; so
    with a loader that raises nothing but [yaml.YAMLError] no exception
    leaves the function.  The block the loader gets is the text between the
    opening delimiter line and the first closing delimiter of the document
    (leading comment lines stripped); a document that does not start with
    three dashes gives "No YAML frontmatter found", and one that does
    without being delimited gives "Invalid frontmatter format". *)
Theorem parse_frontmatter_reports content :
  ((exists fm, parse_frontmatter yaml_safe_load content = inr (Some fm, None))
   \/ (exists e, parse_frontmatter yaml_safe_load content = inr (None, Some e) /\ e <> "")
   \/ (exists e, parse_frontmatter yaml_safe_load content = inl e))
  /\ (forall block,
        match_frontmatter (strip_leading_comments content) = Some block ->
        (forall fm, yaml_safe_load block = Loaded (YMap fm) ->
                    parse_frontmatter yaml_safe_load content = inr (Some fm, None))
        /\ (forall v, yaml_safe_load block = Loaded v ->
                      (forall fm, v <> YMap fm) ->
                      parse_frontmatter yaml_safe_load content
                      = inr (None, Some "Frontmatter must be a YAML dictionary"))
        /\ (forall msg, yaml_safe_load block = YAMLError msg ->
                        parse_frontmatter yaml_safe_load content
                        = inr (None, Some ("Invalid YAML: " ++ msg)))
        /\ (forall e, yaml_safe_load block = Raised e ->
                      parse_frontmatter yaml_safe_load content = inl e))
  /\ (forall e, parse_frontmatter yaml_safe_load content = inl e <->
                exists block,
                  match_frontmatter (strip_leading_comments content) = Some block
                  /\ yaml_safe_load block = Raised e)
  /\ ((forall block e, yaml_safe_load block <> Raised e) ->
      exists r, parse_frontmatter yaml_safe_load content = inr r)
  /\ (forall block tail,
        strip_leading_comments content = DELIM_OPEN ++ block ++ DELIM_CLOSE ++ tail ->
        (forall block' tail',
            strip_leading_comments content = DELIM_OPEN ++ block' ++ DELIM_CLOSE ++ tail' ->
            String.length block <= String.length block') ->
        match_frontmatter (strip_leading_comments content) = Some block)
  /\ (startswith (strip_leading_comments content) "---" = false ->
      parse_frontmatter yaml_safe_load content = inr (None, Some "No YAML frontmatter found"))
  /\ (startswith (strip_leading_comments content) "---" = true ->
      ~ delimited (strip_leading_comments content) ->
      parse_frontmatter yaml_safe_load content
      = inr (None, Some "Invalid frontmatter format")).
Proof.
  destruct (parse_frontmatter_outcomes content) as [Hret Hraise].
  split; [|split; [|split; [|split; [|split; [|split]]]]].
  - destruct (parse_frontmatter yaml_safe_load content) as [e|r] eqn:E.
    + right. right. now exists e.
    + destruct (Hret r eq_refl) as [[fm Hr]|[e [Hr He]]]; subst r.
      * left. now exists fm.
      * right. left. now exists e.
  - intros block Hblock.
    destruct (parse_frontmatter_cases content) as [[Hs _]|[[_ [Hm _]]|[block' [Hm H]]]].
    + apply match_frontmatter_starts in Hblock. congruence.
    + congruence.
    + assert (block' = block) by congruence. subst block'.
      repeat split.
      * intros fm Hl. now rewrite H, Hl.
      * intros v Hl Hv. rewrite H, Hl.
        destruct v; try reflexivity. now destruct (Hv pairs).
      * intros msg Hl. now rewrite H, Hl.
      * intros e Hl. now rewrite H, Hl.
  - exact Hraise.
  - intros Hno. destruct (parse_frontmatter yaml_safe_load content) as [e|r] eqn:E.
    + destruct (proj1 (Hraise e) eq_refl) as [block [_ Hl]]. now destruct (Hno block e).
    + now exists r.
  - intros block tail Hs Hmin. rewrite Hs. apply match_frontmatter_delimited.
    intros b' t' H. apply (Hmin b' t'). now rewrite Hs.
  - intros Hs.
    destruct (parse_frontmatter_cases content) as [[_ H]|[[Hs' _]|[block [Hm _]]]].
    + exact H.
    + congruence.
    + apply match_frontmatter_starts in Hm. congruence.
  - intros Hs Hnd.
    destruct (parse_frontmatter_cases content) as [[Hs' _]|[[_ [_ H]]|[block [Hm _]]]].
    + congruence.
    + exact H.
    + apply match_frontmatter_none in Hnd. congruence.
Qed.

End Properties.

(** C3 as stated fails on a front matter with the date [2001-99-99]: the
    loader raises [ValueError], the handler of [parse_frontmatter] names
    [yaml.YAMLError] only, and the exception leaves [parse_frontmatter] and
    with it the whole analysis; no error text is returned. *)
Lemma loader_value_error_propagates :
  match_frontmatter (strip_leading_comments bad_date_document) = Some "when: 2001-99-99"
  /\ date_loader "when: 2001-99-99" = Raised ValueError
  /\ parse_frontmatter date_loader bad_date_document = inl ValueError
  /\ (forall r, parse_frontmatter date_loader bad_date_document <> inr r)
  /\ analyze_skill date_loader bad_date_package = inl ValueError.
Proof.
  split; [reflexivity|]. split; [reflexivity|]. split; [reflexivity|].
  split; [intros r H; vm_compute in H; discriminate H | reflexivity].
Qed.

(** ** The kebab-case pattern *)

Lemma kebab_alphabet st s :
  kebab_from st s = true ->
  forall c, has_char c s = true -> is_lower_alnum c = true \/ c = "-"%char \/ c = LF.
Proof.
  revert st. induction s as [|c0 r IH]; intros st H c Hc; simpl in *; [discriminate|].
  apply orb_true_iff in Hc. destruct Hc as [Hc|Hc].
  - apply Ascii.eqb_eq in Hc. subst c0.
    destruct (is_lower_alnum c) eqn:E; [now left|].
    destruct st; try discriminate.
    destruct (Ascii.eqb c "-") eqn:E1.
    + apply Ascii.eqb_eq in E1. now right; left.
    + apply andb_true_iff in H. destruct H as [H _].
      apply Ascii.eqb_eq in H. now right; right.
  - destruct (is_lower_alnum c0); [now apply (IH InGroup)|].
    destruct st; try discriminate.
    destruct (Ascii.eqb c0 "-"); [now apply (IH AfterHyphen)|].
    apply andb_true_iff in H. destruct H as [_ H].
    apply String.eqb_eq in H. subst r. discriminate.
Qed.

Lemma upper_outside_alphabet c :
  is_upper c = true \/ c = "_"%char ->
  is_lower_alnum c = false /\ c <> "-"%char /\ c <> LF.
Proof.
  intros [H|H].
  - destruct c as [[] [] [] [] [] [] [] []]; vm_compute in H; try discriminate;
      (split; [reflexivity | split; discriminate]).
  - subst c. split; [reflexivity | split; discriminate].
Qed.

Lemma kebab_rejects_char s c :
  has_char c s = true -> is_upper c = true \/ c = "_"%char -> match_kebab s = false.
Proof.
  intros Hc Hu. destruct (match_kebab s) eqn:E; [|reflexivity].
  destruct (upper_outside_alphabet c Hu) as [H1 [H2 H3]].
  destruct (kebab_alphabet _ _ E c Hc) as [H|[H|H]]; congruence.
Qed.

Lemma kebab_rejects_double_hyphen a b st : kebab_from st (a ++ "--" ++ b) = false.
Proof.
  revert st. induction a as [|c a IH]; intros st; simpl.
  - now destruct st.
  - destruct (is_lower_alnum c); [apply IH|].
    destruct st; try reflexivity.
    destruct (Ascii.eqb c "-"); [apply IH|].
    destruct a; simpl; now rewrite andb_false_r.
Qed.

Lemma kebab_rejects_trailing_hyphen a st : kebab_from st (a ++ "-") = false.
Proof.
  revert st. induction a as [|c a IH]; intros st; simpl.
  - now destruct st.
  - destruct (is_lower_alnum c); [apply IH|].
    destruct st; try reflexivity.
    destruct (Ascii.eqb c "-"); [apply IH|].
    destruct a; simpl; now rewrite andb_false_r.
Qed.

Lemma kebab_rejects_leading_hyphen b : match_kebab ("-" ++ b) = false.
Proof. reflexivity. Qed.

(** The inputs the specification names as invalid are rejected by the
    pattern. *)
Lemma kebab_rejections s :
  (exists c, has_char c s = true /\ (is_upper c = true \/ c = "_"%char))
  \/ contains "--" s
  \/ (exists b, s = "-" ++ b)
  \/ (exists a, s = a ++ "-") ->
  match_kebab s = false.
Proof.
  intros [[c [Hc Hu]]|[[a [b H]]|[[b H]|[a H]]]].
  - now apply (kebab_rejects_char s c).
  - subst s. apply kebab_rejects_double_hyphen.
  - subst s. apply kebab_rejects_leading_hyphen.
  - subst s. apply kebab_rejects_trailing_hyphen.
Qed.

(** ** The field checks *)

(** The values [not v] holds for. *)
Lemma falsy_values v :
  truthy v = false <->
  v = YNull \/ v = YBool false \/ v = YInt 0 \/ v = YStr "" \/ v = YSeq [] \/ v = YMap [].
Proof.
  split.
  - destruct v as [|b|z|s|l|l]; simpl; intros H.
    + now left.
    + subst b. now right; left.
    + apply negb_false_iff, Z.eqb_eq in H. subst z. now right; right; left.
    + apply negb_false_iff, String.eqb_eq in H. subst s. now right; right; right; left.
    + destruct l; [|discriminate]. now right; right; right; right; left.
    + destruct l; [|discriminate]. now right; right; right; right; right.
  - intros [H|[H|[H|[H|[H|H]]]]]; subst v; reflexivity.
Qed.

(** C4, as the code has it.  The name check appends exactly one record.  It
    is FAIL "Missing 'name' field" when the value of [name] is missing or
    falsy (for a string: empty); otherwise the check goes by the text
    [str(name)]: FAIL quoting that text when it does not match the
    kebab-case pattern, FAIL with the length when it matches and is longer
    than 64 characters, PASS echoing the text when it matches and has at
    most 64 characters.  An upper-case letter, an underscore, a doubled
    hyphen, a leading or a trailing hyphen make the text fail the
    pattern. *)
Theorem name_check_verdict (fm : dict) :
  let name := name_of fm in
  let text := py_str name in
  (truthy name = false ->
   emits (check_name fm) [(FRONTMATTER, "Name present", FAIL, "Missing 'name' field")])
  /\ (truthy name = true -> match_kebab text = false ->
      emits (check_name fm)
            [(FRONTMATTER, "Name format", FAIL, "'" ++ text ++ "' is not valid kebab-case")])
  /\ (truthy name = true -> match_kebab text = true -> 64 < String.length text ->
      emits (check_name fm)
            [(FRONTMATTER, "Name length", FAIL,
              str_of_nat (String.length text) ++ " chars (max 64)")])
  /\ (truthy name = true -> match_kebab text = true -> String.length text <= 64 ->
      emits (check_name fm) [(FRONTMATTER, "Name valid", PASS, text)])
  /\ (forall s, name = YStr s -> (truthy name = false <-> s = ""))
  /\ (forall s,
        (exists c, has_char c s = true /\ (is_upper c = true \/ c = "_"%char))
        \/ contains "--" s \/ (exists b, s = "-" ++ b) \/ (exists a, s = a ++ "-") ->
        match_kebab s = false).
Proof.
  intros name text. unfold check_name. fold (name_of fm). fold name. fold text.
  split; [|split; [|split; [|split; [|split]]]].
  - intros H. rewrite H. apply emits_record.
  - intros H1 H2. rewrite H1, H2. apply emits_record.
  - intros H1 H2 H3. rewrite H1, H2. simpl.
    apply Nat.ltb_lt in H3. rewrite H3. apply emits_record.
  - intros H1 H2 H3. rewrite H1, H2. simpl.
    apply Nat.ltb_ge in H3. rewrite H3. apply emits_record.
  - intros s Hs. rewrite Hs. simpl. split; intros H.
    + now apply negb_false_iff, String.eqb_eq in H.
    + now subst s.
  - apply kebab_rejections.
Qed.

(** C4 as stated fails on the mapping with [name: 0]: the text of the name,
    "0", matches the pattern and has one character, the key is present, and
    the check reports the name as missing instead of passing it. *)
Lemma name_zero_is_reported_missing :
  let fm := [(YStr "name", YInt 0)] in
  match_kebab (py_str (name_of fm)) = true
  /\ String.length (py_str (name_of fm)) <= 64
  /\ emits (check_name fm) [(FRONTMATTER, "Name present", FAIL, "Missing 'name' field")]
  /\ ~ emits (check_name fm) [(FRONTMATTER, "Name valid", PASS, py_str (name_of fm))].
Proof.
  cbv zeta. split; [reflexivity|]. split; [simpl; lia|].
  assert (E : emits (check_name [(YStr "name", YInt 0)])
                    [(FRONTMATTER, "Name present", FAIL, "Missing 'name' field")])
    by (intros rs; reflexivity).
  split; [exact E|].
  intros H. pose proof (emits_unique _ _ _ E H) as Heq. discriminate Heq.
Qed.

(** C5, as the code has it.  The description check appends exactly one
    record.  It is FAIL "Missing 'description' field" when the value of
    [description] is missing or falsy; otherwise the check goes by the
    length [d] of the text [str(description)]: WARN when [d < 50], PASS
    with the character count when [50 <= d <= 1024], FAIL when [d > 1024].
    For a string, falsy means [d = 0], so for string descriptions the status
    is a function of [d] alone; in particular 50 and 1024 pass and 1025
    fails. *)
Theorem description_check_verdict (fm : dict) :
  let desc := description_of fm in
  let d := String.length (py_str desc) in
  (truthy desc = false ->
   emits (check_description fm)
         [(FRONTMATTER, "Description present", FAIL, "Missing 'description' field")])
  /\ (truthy desc = true -> d < 50 ->
      emits (check_description fm)
            [(FRONTMATTER, "Description length", WARN,
              str_of_nat d ++ " chars (recommend >= 50)")])
  /\ (truthy desc = true -> 50 <= d <= 1024 ->
      emits (check_description fm)
            [(FRONTMATTER, "Description length", PASS, str_of_nat d ++ " chars")])
  /\ (truthy desc = true -> 1024 < d ->
      emits (check_description fm)
            [(FRONTMATTER, "Description length", FAIL, str_of_nat d ++ " chars (max 1024)")])
  /\ (forall s, desc = YStr s -> (truthy desc = false <-> d = 0))
  /\ (forall s, desc = YStr s ->
        (d = 50 -> emits (check_description fm)
                         [(FRONTMATTER, "Description length", PASS, "50 chars")])
        /\ (d = 1024 -> emits (check_description fm)
                              [(FRONTMATTER, "Description length", PASS, "1024 chars")])
        /\ (d = 1025 -> emits (check_description fm)
                              [(FRONTMATTER, "Description length", FAIL,
                                "1025 chars (max 1024)")])).
Proof.
  intros desc d.
  assert (Hfalsy : truthy desc = false ->
            emits (check_description fm)
              [(FRONTMATTER, "Description present", FAIL, "Missing 'description' field")]).
  { intros H. unfold check_description. fold (description_of fm). fold desc.
    rewrite H. apply emits_record. }
  assert (Hwarn : truthy desc = true -> d < 50 ->
            emits (check_description fm)
              [(FRONTMATTER, "Description length", WARN,
                str_of_nat d ++ " chars (recommend >= 50)")]).
  { intros H1 H2. unfold check_description. fold (description_of fm). fold desc.
    rewrite H1. simpl. fold d. apply Nat.ltb_lt in H2. rewrite H2. apply emits_record. }
  assert (Hpass : truthy desc = true -> 50 <= d <= 1024 ->
            emits (check_description fm)
              [(FRONTMATTER, "Description length", PASS, str_of_nat d ++ " chars")]).
  { intros H1 [H2 H3]. unfold check_description. fold (description_of fm). fold desc.
    rewrite H1. simpl. fold d. apply Nat.ltb_ge in H2, H3. rewrite H2, H3.
    apply emits_record. }
  assert (Hlong : truthy desc = true -> 1024 < d ->
            emits (check_description fm)
              [(FRONTMATTER, "Description length", FAIL,
                str_of_nat d ++ " chars (max 1024)")]).
  { intros H1 H2. unfold check_description. fold (description_of fm). fold desc.
    rewrite H1. simpl. fold d.
    assert (H3 : Nat.ltb d 50 = false) by (apply Nat.ltb_ge; lia).
    apply Nat.ltb_lt in H2. rewrite H3, H2. apply emits_record. }
  assert (Hstr : forall s, desc = YStr s -> (truthy desc = false <-> d = 0)).
  { intros s Hs. unfold d. rewrite Hs. simpl. split; intros H.
    - apply negb_false_iff, String.eqb_eq in H. now subst s.
    - destruct s; [reflexivity | discriminate]. }
  split; [exact Hfalsy|]. split; [exact Hwarn|]. split; [exact Hpass|].
  split; [exact Hlong|]. split; [exact Hstr|].
  intros s Hs.
  assert (Htruthy : d <> 0 -> truthy desc = true).
  { intros Hd. apply not_false_iff_true. intros E.
    apply (Hstr s Hs) in E. contradiction. }
  split; [|split]; intros Hd.
  - replace "50 chars" with (str_of_nat d ++ " chars") by (now rewrite Hd).
    apply Hpass; [apply Htruthy|]; lia.
  - replace "1024 chars" with (str_of_nat d ++ " chars") by (now rewrite Hd).
    apply Hpass; [apply Htruthy|]; lia.
  - replace "1025 chars (max 1024)" with (str_of_nat d ++ " chars (max 1024)")
      by (now rewrite Hd).
    apply Hlong; [apply Htruthy|]; lia.
Qed.

(** C5 as stated fails: the status is not determined by the length alone.
    The descriptions [0] (an integer) and "x" both have a text of one
    character; the first is reported missing (FAIL), the second too short
    (WARN). *)
Lemma description_status_depends_on_truthiness :
  let fm1 := [(YStr "description", YInt 0)] in
  let fm2 := [(YStr "description", YStr "x")] in
  String.length (py_str (description_of fm1)) = 1
  /\ String.length (py_str (description_of fm2)) = 1
  /\ emits (check_description fm1)
           [(FRONTMATTER, "Description present", FAIL, "Missing 'description' field")]
  /\ emits (check_description fm2)
           [(FRONTMATTER, "Description length", WARN, "1 chars (recommend >= 50)")].
Proof.
  cbv zeta. repeat split; intros rs; reflexivity.
Qed.

(** C10.  The name and description checks test the truthiness of the value
    [fm.get] returns.  When the value [v] stored under [name] (or under
    [description]) is falsy, the check appends FAIL "Missing 'name' field"
    (or "Missing 'description' field") and behaves on every accumulator
    exactly as on a mapping without the key.  The values [null], [false],
    [0], the empty string and the empty list are falsy. *)
Theorem falsy_field_reported_missing (fm : dict) (v : yaml) (Hfalsy : truthy v = false) :
  (name_of fm = v ->
   emits (check_name fm) [(FRONTMATTER, "Name present", FAIL, "Missing 'name' field")]
   /\ forall rs, check_name fm rs = check_name [] rs)
  /\ (description_of fm = v ->
      emits (check_description fm)
            [(FRONTMATTER, "Description present", FAIL, "Missing 'description' field")]
      /\ forall rs, check_description fm rs = check_description [] rs)
  /\ Forall (fun x => truthy x = false) [YNull; YBool false; YInt 0; YStr ""; YSeq []].
Proof.
  split; [|split].
  - intros Hv.
    assert (E : forall rs, check_name fm rs = check_name [] rs).
    { intros rs. unfold check_name. fold (name_of fm). rewrite Hv, Hfalsy. reflexivity. }
    split; [|exact E]. intros rs. rewrite E. reflexivity.
  - intros Hv.
    assert (E : forall rs, check_description fm rs = check_description [] rs).
    { intros rs. unfold check_description. fold (description_of fm).
      rewrite Hv, Hfalsy. reflexivity. }
    split; [|exact E]. intros rs. rewrite E. reflexivity.
  - repeat constructor.
Qed.

(** C10 at a mapping whose [name] is [null] and whose [description] is an
    empty list. *)
Lemma falsy_field_reported_missing_witness :
  truthy YNull = false
  /\ ((name_of [(YStr "name", YNull); (YStr "description", YSeq [])] = YNull ->
       emits (check_name [(YStr "name", YNull); (YStr "description", YSeq [])])
             [(FRONTMATTER, "Name present", FAIL, "Missing 'name' field")]
       /\ forall rs, check_name [(YStr "name", YNull); (YStr "description", YSeq [])] rs
                     = check_name [] rs)
      /\ (description_of [(YStr "name", YNull); (YStr "description", YSeq [])] = YNull ->
          emits (check_description [(YStr "name", YNull); (YStr "description", YSeq [])])
                [(FRONTMATTER, "Description present", FAIL, "Missing 'description' field")]
          /\ forall rs, check_description [(YStr "name", YNull); (YStr "description", YSeq [])] rs
                        = check_description [] rs)
      /\ Forall (fun x => truthy x = false) [YNull; YBool false; YInt 0; YStr ""; YSeq []]).
Proof.
  split; [reflexivity|].
  apply (falsy_field_reported_missing
           [(YStr "name", YNull); (YStr "description", YSeq [])] YNull).
  reflexivity.
Defined.

(** ** Counting lines and words *)







(** ** The size checks *)


(** The boundaries of the size checks on documents without front matter:
    500 lines pass and 501 warn; 5000 words pass and 5001 warn. *)
Example line_count_boundary :
  check_line_count (repeat_text 500 ("line" ++ nl)) []
  = inr (tt, [("SIZE", "SKILL.md line count", PASS, "500 lines")])
  /\ check_line_count (repeat_text 501 ("line" ++ nl)) []
     = inr (tt, [("SIZE", "SKILL.md line count", WARN, "501 lines (recommend <= 500)")]).
Proof. split; vm_compute; reflexivity. Qed.

Example word_count_boundary :
  check_word_count (body_of (repeat_text 5000 "word ")) []
  = inr (tt, [("SIZE", "Body word count", PASS, "5000 words")])
  /\ check_word_count (body_of (repeat_text (S 5000) "word ")) []
     = inr (tt, [("SIZE", "Body word count", WARN, "5001 words (recommend <= 5000)")]).
Proof. split; vm_compute; reflexivity. Qed.

(** ** Extracting links *)

Lemma has_char_app c a b : has_char c (a ++ b) = has_char c a || has_char c b.
Proof.
  induction a as [|x a IH]; simpl; [reflexivity|]. now rewrite IH, orb_assoc.
Qed.

Lemma span_spec p s a b :
  span p s = (a, b) ->
  s = a ++ b /\ (forall c, has_char c a = true -> p c = true).
Proof.
  revert a b. induction s as [|c r IH]; intros a b H; cbn [span] in H.
  - inversion H. split; [reflexivity | discriminate].
  - destruct (p c) eqn:Ep.
    + destruct (span p r) as [a0 b0] eqn:Es. inversion H; subst.
      destruct (IH a0 b eq_refl) as [Hr Ha]. split; [cbn; now rewrite <- Hr|].
      intros c' Hc'. cbn [has_char] in Hc'. apply orb_true_iff in Hc'.
      destruct Hc' as [Hc'|Hc']; [|now apply Ha].
      apply Ascii.eqb_eq in Hc'. now subst c'.
    + inversion H; subst. split; [reflexivity | discriminate].
Qed.

Lemma span_stop p a c r :
  (forall x, has_char x a = true -> p x = true) -> p c = false ->
  span p (a ++ String c r) = (a, String c r).
Proof.
  intros Ha Hc. induction a as [|x a IH]; cbn [append span].
  - now rewrite Hc.
  - rewrite (Ha x) by (cbn [has_char]; now rewrite Ascii.eqb_refl).
    rewrite IH; [reflexivity|]. intros y Hy. apply Ha. cbn [has_char].
    rewrite Hy. apply orb_true_r.
Qed.

Lemma absent_char_test c a :
  has_char c a = false -> forall x, has_char x a = true -> negb (Ascii.eqb x c) = true.
Proof.
  intros Ha x Hx. apply negb_true_iff. destruct (Ascii.eqb x c) eqn:E; [|reflexivity].
  apply Ascii.eqb_eq in E. subst x. congruence.
Qed.

Lemma link_at_other c r : Ascii.eqb c "[" = false -> link_at (String c r) = None.
Proof.
  intros H. destruct c as [[] [] [] [] [] [] [] []]; try reflexivity. discriminate H.
Qed.

Lemma fence_at_other c r : Ascii.eqb c BACKTICK = false -> fence_at (String c r) = None.
Proof.
  intros H. unfold fence_at, startswith, FENCE. cbn [prefix].
  destruct (ascii_dec "`" c) as [E|E]; [|reflexivity].
  subst c. discriminate H.
Qed.

(** What a hit of the link pattern looks like. *)
Lemma link_at_shape s text href n :
  link_at s = Some ((text, href), n) ->
  (exists rest, s = link_markup text href ++ rest)
  /\ has_char "]" text = false /\ href <> "" /\ has_char ")" href = false
  /\ n = String.length (link_markup text href).
Proof.
  intros H. destruct s as [|c r]; [discriminate|].
  destruct (Ascii.eqb c "[") eqn:Ec; [|now rewrite (link_at_other c r Ec) in H].
  apply Ascii.eqb_eq in Ec. subst c. cbn [link_at] in H.
  destruct (span (fun c => negb (Ascii.eqb c "]")) r) as [t r1] eqn:E1.
  destruct (span_spec _ _ _ _ E1) as [Hr Ht].
  destruct r1 as [|c1 r1]; [discriminate|].
  destruct (Ascii.eqb c1 "]") eqn:Ec1;
    [|destruct c1 as [[] [] [] [] [] [] [] []]; try discriminate H; discriminate Ec1].
  apply Ascii.eqb_eq in Ec1. subst c1.
  destruct r1 as [|c2 r2]; [discriminate|].
  destruct (Ascii.eqb c2 "(") eqn:Ec2;
    [|destruct c2 as [[] [] [] [] [] [] [] []]; try discriminate H; discriminate Ec2].
  apply Ascii.eqb_eq in Ec2. subst c2.
  destruct (span (fun c => negb (Ascii.eqb c ")")) r2) as [h r3] eqn:E2.
  destruct (span_spec _ _ _ _ E2) as [Hr2 Hh].
  destruct h as [|h0 h]; [discriminate|].
  destruct r3 as [|c3 r3]; [discriminate|].
  destruct (Ascii.eqb c3 ")") eqn:Ec3;
    [|destruct c3 as [[] [] [] [] [] [] [] []]; try discriminate H; discriminate Ec3].
  apply Ascii.eqb_eq in Ec3. subst c3.
  inversion H; subst text href n. clear H.
  split; [|split; [|split; [|split]]].
  - exists r3. rewrite Hr, Hr2. unfold link_markup.
    cbn [append]. f_equal. rewrite !append_assoc_str. cbn [append]. f_equal. f_equal. f_equal.
    rewrite !append_assoc_str. reflexivity.
  - destruct (has_char "]" t) eqn:E; [|reflexivity].
    apply Ht in E. discriminate.
  - discriminate.
  - destruct (has_char ")" (String h0 h)) eqn:E; [|reflexivity].
    apply Hh in E. discriminate.
  - unfold link_markup. cbn [append String.length].
    repeat (rewrite length_append_str; cbn [String.length]). lia.
Qed.

(** Every hit of a scan is a hit of the pattern at some place of the text. *)
Lemma re_scan_hit_place {A : Type} (try : string -> option (A * nat)) a s :
  forall skip,
    In a (hits (re_scan try skip s)) ->
    exists before here n, s = before ++ here /\ try here = Some (a, n).
Proof.
  induction s as [|c r IH]; intros skip Hin; cbn [re_scan] in Hin; [destruct Hin|].
  assert (Hlater : forall k, In a (hits (re_scan try k r)) ->
                     exists before here n, String c r = before ++ here
                                           /\ try here = Some (a, n)).
  { intros k Hk. destruct (IH k Hk) as [before [here [n [Hs Hh]]]].
    exists (String c before), here, n. split; [cbn; now rewrite Hs | exact Hh]. }
  destruct skip as [|k]; [|now apply (Hlater k)].
  destruct (try (String c r)) as [[a0 n0]|] eqn:Et.
  - cbn [hits] in Hin. destruct Hin as [E|Hin]; [|now apply (Hlater (pred n0))].
    subst a0. exists "", (String c r), n0. now split.
  - cbn [hits] in Hin. now apply (Hlater 0).
Qed.

(** Passing the characters of a hit. *)
Lemma re_scan_skip {A : Type} (try : string -> option (A * nat)) a b :
  re_scan try (String.length a) (a ++ b) = re_scan try 0 b.
Proof.
  induction a as [|c a IH]; cbn [String.length append]; [|exact IH].
  destruct b; reflexivity.
Qed.

Lemma scan_links_plain a s :
  has_char "[" a = false ->
  hits (re_scan link_at 0 (a ++ s)) = hits (re_scan link_at 0 s).
Proof.
  induction a as [|c a IH]; intros H; [reflexivity|].
  cbn [has_char] in H. apply orb_false_iff in H. destruct H as [Hc Ha].
  cbn [append re_scan]. rewrite (link_at_other c (a ++ s)) by now rewrite Ascii.eqb_sym.
  cbn [hits]. now apply IH.
Qed.

Lemma scan_fences_plain a s :
  has_char BACKTICK a = false ->
  kept (re_scan fence_at 0 (a ++ s)) = a ++ kept (re_scan fence_at 0 s).
Proof.
  induction a as [|c a IH]; intros H; [reflexivity|].
  cbn [has_char] in H. apply orb_false_iff in H. destruct H as [Hc Ha].
  cbn [append re_scan]. rewrite (fence_at_other c (a ++ s)) by now rewrite Ascii.eqb_sym.
  cbn [kept]. now rewrite IH.
Qed.

Lemma scan_fences_no_backtick s :
  has_char BACKTICK s = false -> kept (re_scan fence_at 0 s) = s.
Proof.
  intros H. rewrite <- (append_nil_r s) at 1.
  rewrite (scan_fences_plain s "" H). cbn [re_scan kept]. apply append_nil_r.
Qed.

Lemma scan_links_no_bracket s :
  has_char "[" s = false -> hits (re_scan link_at 0 s) = [].
Proof.
  intros H. rewrite <- (append_nil_r s). now rewrite (scan_links_plain s "" H).
Qed.

Lemma link_at_hit text href rest :
  has_char "]" text = false -> href <> "" -> has_char ")" href = false ->
  link_at (link_markup text href ++ rest)
  = Some ((text, href), String.length (link_markup text href)).
Proof.
  intros Ht Hne Hh. unfold link_markup. rewrite !append_assoc_str.
  cbn [append link_at].
  rewrite (span_stop _ text "]" _ (absent_char_test _ _ Ht) eq_refl).
  cbn iota beta.
  rewrite (span_stop _ href ")" _ (absent_char_test _ _ Hh) eq_refl).
  destruct href as [|h0 h]; [congruence|]. cbn iota beta.
  f_equal. f_equal. cbn [String.length].
  repeat (rewrite length_append_str; cbn [String.length]). lia.
Qed.

Lemma partition_at_fence code rest :
  has_char BACKTICK code = false ->
  partition_at FENCE (code ++ FENCE ++ rest) = Some (code, rest).
Proof.
  induction code as [|c code IH]; intros H; rewrite partition_at_unfold.
  - change ("" ++ FENCE ++ rest) with (FENCE ++ rest). now rewrite prefix_of_app.
  - cbn [has_char] in H. apply orb_false_iff in H. destruct H as [Hc Hcode].
    cbn [append]. unfold FENCE at 1. cbn [prefix].
    destruct (ascii_dec "`" c) as [E|E]; [subst c; discriminate Hc|].
    now rewrite (IH Hcode).
Qed.

(** The first link after a text without opening bracket. *)
Lemma scan_links_first before text href after :
  has_char "[" before = false ->
  has_char "]" text = false -> href <> "" -> has_char ")" href = false ->
  hits (re_scan link_at 0 (before ++ link_markup text href ++ after))
  = (text, href) :: hits (re_scan link_at 0 after).
Proof.
  intros Hb Ht Hne Hh. rewrite (scan_links_plain before _ Hb).
  pose proof (link_at_hit text href after Ht Hne Hh) as Hhit.
  remember (link_markup text href) as m eqn:Em.
  assert (Hm : exists r, m = String "[" r) by (subst m; now eexists).
  destruct Hm as [r Hr]. rewrite Hr in Hhit |- *.
  cbn [append re_scan]. cbn [append] in Hhit. rewrite Hhit.
  cbn [hits String.length pred]. f_equal. apply f_equal, re_scan_skip.
Qed.

(** The first fenced block after a text without backtick is cut out. *)
Lemma scan_fences_cut before code after :
  has_char BACKTICK before = false -> has_char BACKTICK code = false ->
  kept (re_scan fence_at 0 (before ++ FENCE ++ code ++ FENCE ++ after))
  = before ++ kept (re_scan fence_at 0 after).
Proof.
  intros Hbefore Hcode. rewrite (scan_fences_plain before _ Hbefore). f_equal.
  assert (Hhit : fence_at (FENCE ++ code ++ FENCE ++ after)
                 = Some (tt, 3 + String.length code + 3)).
  { unfold fence_at, startswith. rewrite prefix_of_app.
    change (drop 3 (FENCE ++ code ++ FENCE ++ after)) with (code ++ FENCE ++ after).
    now rewrite (partition_at_fence code after Hcode). }
  assert (Hs : FENCE ++ code ++ FENCE ++ after
               = String BACKTICK (("``" ++ code ++ FENCE) ++ after)).
  { unfold FENCE. cbn [append]. now rewrite append_assoc_str. }
  rewrite Hs in Hhit |- *. cbn [re_scan]. rewrite Hhit. cbn [kept].
  replace (pred (3 + String.length code + 3))
    with (String.length ("``" ++ code ++ FENCE)).
  - now rewrite re_scan_skip.
  - cbn [append String.length]. rewrite length_append_str. cbn. lia.
Qed.

(** ** Link integrity *)

(** The loop when every probe answers: it counts the hrefs that resolve and
    keeps the others, in link order. *)
Lemma link_fold_answers (pkg : package) rel n b :
  probes_answer pkg (map snd rel) ->
  link_fold pkg rel (n, b)
  = inr (n + List.length (filter (valid_href pkg) (map snd rel)),
         (b ++ filter (broken_href pkg) (map snd rel))%list).
Proof.
  revert n b. induction rel as [|l rel IH]; intros n b Hp; cbn [link_fold map filter].
  - now rewrite Nat.add_0_r, app_nil_r.
  - assert (Hrest : probes_answer pkg (map snd rel))
      by (intros h Hh; apply Hp; now right).
    pose proof (Hp (snd l) (or_introl eq_refl)) as Hl.
    unfold link_step, valid_href at 1, broken_href at 1.
    destruct (target_exists pkg (snd l)) as [[|]|]; [| |congruence];
      cbn [fst snd]; rewrite (IH _ _ Hrest); cbn [List.length].
    + f_equal. f_equal. lia.
    + now rewrite <- app_assoc.
Qed.

(** The loop raises [OSError], and nothing else, exactly when a probe
    raises. *)
Lemma link_fold_raises (pkg : package) rel acc e :
  link_fold pkg rel acc = inl e <->
  e = OSError /\ exists l, In l rel /\ target_exists pkg (snd l) = None.
Proof.
  revert acc. induction rel as [|l rel IH]; intros acc; cbn [link_fold].
  - split; [discriminate | intros [_ [l [[] _]]]].
  - unfold link_step. destruct (target_exists pkg (snd l)) as [[|]|] eqn:El.
    + rewrite IH. split; intros [He [l' [Hin Hl']]]; (split; [exact He|]).
      * exists l'. split; [now right | exact Hl'].
      * destruct Hin as [Hin|Hin]; [subst l'; congruence | now exists l'].
    + rewrite IH. split; intros [He [l' [Hin Hl']]]; (split; [exact He|]).
      * exists l'. split; [now right | exact Hl'].
      * destruct Hin as [Hin|Hin]; [subst l'; congruence | now exists l'].
    + split.
      * intros H. inversion H. split; [reflexivity|]. exists l. split; [now left | exact El].
      * intros [He _]. now subst e.
Qed.

Lemma probes_answer_decide (pkg : package) hrefs :
  probes_answer pkg hrefs \/ exists h, In h hrefs /\ target_exists pkg h = None.
Proof.
  induction hrefs as [|h hrefs [IH|[h' [Hin Hh']]]].
  - left. intros h [].
  - destruct (target_exists pkg h) as [b|] eqn:E.
    + left. intros h' [Eh|Hin]; [subst h'; congruence | now apply IH].
    + right. exists h. split; [now left | exact E].
  - right. exists h'. split; [now right | exact Hh'].
Qed.

Lemma filter_all {A : Type} (p : A -> bool) l :
  (forall x, In x l -> p x = true) -> filter p l = l.
Proof.
  induction l as [|x l IH]; intros H; simpl; [reflexivity|].
  rewrite (H x (or_introl eq_refl)). f_equal. apply IH. intros y Hy. apply H. now right.
Qed.

Lemma filter_swap {A : Type} (p q : A -> bool) l :
  filter p (filter q l) = filter q (filter p l).
Proof.
  induction l as [|x l IH]; simpl; [reflexivity|].
  destruct (p x) eqn:P, (q x) eqn:Q; simpl; rewrite ?P, ?Q, IH; reflexivity.
Qed.

(** Keeping the first occurrence of every string commutes with a filter. *)
Lemma dedup_filter (p : string -> bool) l : dedup (filter p l) = filter p (dedup l).
Proof.
  induction l as [|x l IH]; simpl; [reflexivity|].
  destruct (p x) eqn:P; simpl.
  - rewrite IH. f_equal. apply filter_swap.
  - rewrite IH, (filter_swap p). symmetry. apply filter_all.
    intros y Hy. apply filter_In in Hy. destruct Hy as [_ Hy].
    apply negb_true_iff, String.eqb_neq. intros E. subst y. congruence.
Qed.

Lemma is_external_prefixes href :
  is_external href = true <->
  startswith href "http://" = true \/ startswith href "https://" = true
  \/ startswith href "#" = true \/ startswith href "mailto:" = true.
Proof.
  unfold is_external, startswith_any, EXTERNAL. simpl.
  rewrite !orb_true_iff. intuition discriminate.
Qed.

Lemma filter_nothing_In {A : Type} (p : A -> bool) l :
  (forall x, In x l -> p x = false) -> filter p l = [].
Proof.
  induction l as [|x l IH]; intros H; simpl; [reflexivity|].
  rewrite (H x (or_introl eq_refl)). apply IH. intros y Hy. apply H. now right.
Qed.

(** When every probe answers and no href is broken, all of them resolve. *)
Lemma no_broken_all_valid (pkg : package) hrefs :
  probes_answer pkg hrefs -> filter (broken_href pkg) hrefs = [] ->
  filter (valid_href pkg) hrefs = hrefs.
Proof.
  intros Hp Hb. apply filter_all. intros h Hh.
  unfold valid_href. pose proof (Hp h Hh) as Ha.
  destruct (target_exists pkg h) as [[|]|] eqn:E; [reflexivity| |congruence].
  assert (Hin : In h (filter (broken_href pkg) hrefs)).
  { apply filter_In. split; [exact Hh|]. unfold broken_href. now rewrite E. }
  rewrite Hb in Hin. destruct Hin.
Qed.

(** What the link-integrity block does, by the probes of the hrefs. *)
Lemma check_links_cases (pkg : package) (rel : list (string * string)) :
  let hrefs := map snd rel in
  let broken := filter (broken_href pkg) hrefs in
  (rel = [] ->
   emits (check_links pkg rel)
         [("REFERENCES", "Link integrity", INFO, "No internal links found")])
  /\ (probes_answer pkg hrefs -> rel <> [] -> broken = [] ->
      emits (check_links pkg rel)
            [("REFERENCES", "Link integrity", PASS,
              str_of_nat (List.length rel) ++ "/" ++ str_of_nat (List.length rel)
                ++ " links valid")])
  /\ (probes_answer pkg hrefs -> broken <> [] ->
      emits (check_links pkg rel)
            [("REFERENCES", "Link integrity", FAIL, "Broken: " ++ join ", " broken)])
  /\ ((exists h, In h hrefs /\ target_exists pkg h = None) ->
      forall rs, check_links pkg rel rs = inl OSError).
Proof.
  intros hrefs broken. split; [|split; [|split]].
  - intros H. rewrite H. apply emits_record.
  - intros Hp Hne Hb. unfold check_links, link_loop.
    destruct rel as [|l0 rel0]; [congruence|].
    rewrite (link_fold_answers pkg (l0 :: rel0) 0 [] Hp). fold hrefs. fold broken.
    rewrite Hb. cbn [app Nat.add].
    unfold broken in Hb. rewrite (no_broken_all_valid pkg hrefs Hp Hb).
    unfold hrefs. rewrite length_map. apply emits_record.
  - intros Hp Hb. unfold check_links, link_loop.
    destruct rel as [|l0 rel0]; [now destruct Hb|].
    rewrite (link_fold_answers pkg (l0 :: rel0) 0 [] Hp). fold hrefs. fold broken.
    cbn [app]. destruct broken; [congruence|]. apply emits_record.
  - intros [h [Hin Hh]] rs. unfold check_links, link_loop.
    destruct rel as [|l0 rel0]; [destruct Hin|].
    assert (Hr : link_fold pkg (l0 :: rel0) (0, []) = inl OSError).
    { apply link_fold_raises. split; [reflexivity|].
      unfold hrefs in Hin. apply in_map_iff in Hin. destruct Hin as [l [El Hl]].
      exists l. split; [exact Hl | now rewrite El]. }
    now rewrite Hr.
Qed.

(** C7, as the code has it.  The links are what the link pattern finds in
    the body with its fenced code blocks cut out: every extracted link is
    written there, with a text free of closing brackets and a non-empty href
    free of closing parentheses; a link written after a text without opening
    bracket is the first one extracted; a fenced block after a text without
    backtick is cut out with all it holds.  The links fall into two classes:
    external, when the href starts with http://, https://, # or mailto:, and
    relative otherwise; the relative links are the extracted links that are
    not external.  The link-integrity block probes the target of every
    relative href.  When a probe raises, the block raises [OSError] and
    appends nothing.  When every probe answers it appends exactly one
    record, (REFERENCES, "Link integrity", ...): INFO "No internal links
    found" when there is no relative link; PASS with "n/n links valid" when
    every relative link resolves; otherwise FAIL with "Broken: " followed by
    the hrefs that do not resolve, each occurrence in link order (so their
    first occurrences come in the order of first appearance in the body),
    whether or not other links resolve. *)
Theorem link_integrity_verdict (pkg : package) (body : string) :
  let stripped := kept (re_scan fence_at 0 body) in
  let links := extract_markdown_links body in
  let rel := relative_links links in
  let hrefs := map snd rel in
  let broken := filter (broken_href pkg) hrefs in
  (forall text href,
      In (text, href) links ->
      has_char "]" text = false /\ href <> "" /\ has_char ")" href = false
      /\ contains (link_markup text href) stripped)
  /\ (forall before text href after,
        stripped = before ++ link_markup text href ++ after ->
        has_char "[" before = false ->
        has_char "]" text = false -> href <> "" -> has_char ")" href = false ->
        links = (text, href) :: hits (re_scan link_at 0 after))
  /\ (has_char "[" stripped = false -> links = [])
  /\ (forall before code after,
        body = before ++ FENCE ++ code ++ FENCE ++ after ->
        has_char BACKTICK before = false -> has_char BACKTICK code = false ->
        stripped = before ++ kept (re_scan fence_at 0 after))
  /\ (has_char BACKTICK body = false -> stripped = body)
  /\ (forall l, In l links -> if is_external (snd l) then ~ In l rel else In l rel)
  /\ (forall l, In l rel -> In l links)
  /\ (forall h, is_external h = true <->
                startswith h "http://" = true \/ startswith h "https://" = true
                \/ startswith h "#" = true \/ startswith h "mailto:" = true)
  /\ (rel = [] ->
      emits (check_links pkg rel)
            [("REFERENCES", "Link integrity", INFO, "No internal links found")])
  /\ (probes_answer pkg hrefs ->
      (exists r, emits (check_links pkg rel) [r]
                 /\ rec_section r = "REFERENCES" /\ rec_check r = "Link integrity")
      /\ (rel <> [] -> broken = [] ->
          emits (check_links pkg rel)
                [("REFERENCES", "Link integrity", PASS,
                  str_of_nat (List.length rel) ++ "/" ++ str_of_nat (List.length rel)
                    ++ " links valid")])
      /\ (broken <> [] ->
          emits (check_links pkg rel)
                [("REFERENCES", "Link integrity", FAIL, "Broken: " ++ join ", " broken)]))
  /\ ((exists h, In h hrefs /\ target_exists pkg h = None) ->
      forall rs, check_links pkg rel rs = inl OSError)
  /\ (forall h, In h broken <-> In h hrefs /\ target_exists pkg h = Some false)
  /\ dedup broken = filter (broken_href pkg) (dedup hrefs).
Proof.
  intros stripped links rel hrefs broken.
  destruct (check_links_cases pkg rel) as [Hinfo [Hpass [Hfail Hraise]]].
  fold hrefs in Hpass, Hfail, Hraise. fold broken in Hpass, Hfail.
  split; [|split; [|split; [|split; [|split; [|split; [|split; [|split;
    [|split; [|split; [|split; [|split]]]]]]]]]]].
  - intros text href Hin. unfold links, extract_markdown_links in Hin.
    destruct (re_scan_hit_place _ _ _ _ Hin) as [before [here [n [Hs Hh]]]].
    destruct (link_at_shape _ _ _ _ Hh) as [[rest Hrest] [Ht [Hne [Hh' _]]]].
    repeat split; try assumption.
    exists before, rest. unfold stripped. now rewrite Hs, Hrest.
  - intros before text href after Hs Hb Ht Hne Hh.
    unfold links, extract_markdown_links. fold stripped. rewrite Hs.
    now apply scan_links_first.
  - intros H. unfold links, extract_markdown_links. fold stripped.
    now apply scan_links_no_bracket.
  - intros before code after Hb Hbefore Hcode. unfold stripped. rewrite Hb.
    now apply scan_fences_cut.
  - intros H. unfold stripped. now apply scan_fences_no_backtick.
  - intros l Hl. unfold rel, relative_links.
    destruct (is_external (snd l)) eqn:E.
    + intros Hin. apply filter_In in Hin. destruct Hin as [_ Hin].
      rewrite E in Hin. discriminate.
    + apply filter_In. split; [exact Hl | now rewrite E].
  - intros l Hl. unfold rel, relative_links in Hl. now apply filter_In in Hl.
  - apply is_external_prefixes.
  - exact Hinfo.
  - intros Hp. split; [|split].
    + assert (Hrel : rel = [] \/ rel <> [])
        by (unfold rel; destruct (relative_links links); [now left | right; discriminate]).
      assert (Hbroken : broken = [] \/ broken <> [])
        by (unfold broken; destruct (filter _ hrefs); [now left | right; discriminate]).
      destruct Hrel as [Hrel|Hrel]; [|destruct Hbroken as [Hb|Hb]].
      * eexists. split; [now apply Hinfo | split; reflexivity].
      * eexists. split; [now apply Hpass | split; reflexivity].
      * eexists. split; [now apply Hfail | split; reflexivity].
    + now apply Hpass.
    + now apply Hfail.
  - exact Hraise.
  - intros h. unfold broken. rewrite filter_In. unfold broken_href.
    destruct (target_exists pkg h) as [[|]|]; intuition congruence.
  - apply dedup_filter.
Qed.

(** C7 as stated fails twice.  The INFO record does not read "no internal
    links found": its detail starts with a capital letter.  And a relative
    link need not end as resolved or as listed in a FAIL record: on a
    document that links a name of 256 characters the probe of the target
    raises, the block appends no record at all, and the analysis ends with
    [OSError] instead of a list. *)
Lemma overlong_href_raises_instead_of_fail :
  let rel := relative_links (extract_markdown_links ("See [x](" ++ overlong_href ++ ").")) in
  check_links empty_package [] []
  = inr (tt, [("REFERENCES", "Link integrity", INFO, "No internal links found")])
  /\ "No internal links found" <> "no internal links found"
  /\ rel = [("x", overlong_href)]
  /\ target_exists overlong_link_package overlong_href = None
  /\ check_links overlong_link_package rel [] = inl OSError
  /\ (forall loader, analyze_skill loader overlong_link_package = inl OSError).
Proof.
  cbv zeta. split; [reflexivity|]. split; [discriminate|].
  split; [vm_compute; reflexivity|]. split; [reflexivity|].
  split; [vm_compute; reflexivity|].
  intros loader. unfold analyze_skill. cbn [overlong_link_package entries lookup find
    entry_name String.eqb Ascii.eqb Bool.eqb entry_exists negb read_text].
  unfold analyze_document, bind.
  destruct (check_frontmatter loader ("See [x](" ++ overlong_href ++ ").")
              [("STRUCTURE", "SKILL.md exists", PASS, "")]) as [e|[u rs]] eqn:Efm.
  - exfalso. unfold record in Efm. unfold check_frontmatter in Efm.
    vm_compute in Efm. discriminate.
  - unfold record in Efm. unfold check_frontmatter in Efm. vm_compute in Efm.
    inversion Efm; subst. vm_compute. reflexivity.
Qed.

(** ** The link loop *)

(** X3.  The loop over the relative links.  It is left by [OSError], and by
    nothing else, exactly when the probe of a target raises; it finishes
    when every probe answers.  When it finishes it has counted every link
    exactly once, as valid or as broken; no link is broken exactly when
    every target exists; and a broken href is listed as often as it is
    linked, not once per href. *)
Theorem link_loop_accounts_for_every_link (pkg : package) (rel : list (string * string)) :
  (forall e, link_loop pkg rel = inl e <->
             e = OSError /\ exists l, In l rel /\ target_exists pkg (snd l) = None)
  /\ ((forall l, In l rel -> target_exists pkg (snd l) <> None) ->
      exists valid broken, link_loop pkg rel = inr (valid, broken))
  /\ (forall valid broken,
        link_loop pkg rel = inr (valid, broken) ->
        valid + List.length broken = List.length rel
        /\ (broken = [] <-> forall l, In l rel -> target_exists pkg (snd l) = Some true)
        /\ (forall h, target_exists pkg h = Some false ->
                      count_occ string_dec broken h
                      = count_occ string_dec (map snd rel) h)).
Proof.
  assert (Hanswers : (forall l, In l rel -> target_exists pkg (snd l) <> None) ->
                     probes_answer pkg (map snd rel)).
  { intros H h Hh. apply in_map_iff in Hh. destruct Hh as [l [El Hl]]. subst h.
    now apply H. }
  split; [|split].
  - intros e. apply link_fold_raises.
  - intros H. unfold link_loop. rewrite (link_fold_answers pkg rel 0 [] (Hanswers H)).
    now eexists _, _.
  - intros valid broken Hdone.
    assert (Hp : forall l, In l rel -> target_exists pkg (snd l) <> None).
    { intros l Hl E. assert (Hr : link_loop pkg rel = inl OSError).
      { apply link_fold_raises. split; [reflexivity | now exists l]. }
      congruence. }
    unfold link_loop in Hdone. rewrite (link_fold_answers pkg rel 0 [] (Hanswers Hp)) in Hdone.
    inversion Hdone; subst valid broken. clear Hdone. cbn [Nat.add app].
    split; [|split].
    + clear Hanswers. induction rel as [|l rel IH]; [reflexivity|].
      cbn [map filter List.length].
      pose proof (Hp l (or_introl eq_refl)) as Hl.
      assert (IH' := IH (fun l' Hl' => Hp l' (or_intror Hl'))).
      unfold valid_href at 1, broken_href at 1.
      destruct (target_exists pkg (snd l)) as [[|]|]; [| |congruence];
        cbn [List.length]; lia.
    + split.
      * intros Hnil l Hl. pose proof (Hp l Hl) as Ha.
        destruct (target_exists pkg (snd l)) as [[|]|] eqn:E; [reflexivity| |congruence].
        assert (Hin : In (snd l) (filter (broken_href pkg) (map snd rel))).
        { apply filter_In. split; [now apply in_map|]. unfold broken_href. now rewrite E. }
        rewrite Hnil in Hin. destruct Hin.
      * intros Hall. apply filter_nothing_In. intros h Hh.
        apply in_map_iff in Hh. destruct Hh as [l [El Hl]]. subst h.
        unfold broken_href. now rewrite (Hall l Hl).
    + intros h Hh. clear Hp Hanswers. induction rel as [|l rel IH]; [reflexivity|].
      cbn [map filter]. unfold broken_href at 1.
      destruct (string_dec (snd l) h) as [Eh|Eh].
      * rewrite Eh, Hh. cbn [count_occ].
        destruct (string_dec h h); [|congruence]. now rewrite IH.
      * destruct (target_exists pkg (snd l)) as [[|]|]; cbn [count_occ];
          destruct (string_dec (snd l) h); try congruence; exact IH.
Qed.

(** A link inside a fenced code block is not extracted; links before and
    after the block are, in order. *)
Example extract_markdown_links_skips_fences :
  extract_markdown_links
    ("See [guide](references/guide.md). ```[inside](code.md)``` and [site](https://x.org)")
  = [("guide", "references/guide.md"); ("site", "https://x.org")].
Proof. reflexivity. Qed.

(** ** Reference files *)

Lemma mem_In x l : mem x l = true <-> In x l.
Proof.
  unfold mem. rewrite existsb_exists. split.
  - intros [y [Hy E]]. apply String.eqb_eq in E. now subst y.
  - intros H. exists x. split; [exact H | apply String.eqb_refl].
Qed.

Lemma reference_path_is_relative f : is_external ("references/" ++ f) = false.
Proof. reflexivity. Qed.

Lemma raw_reference_href_is_relative links f :
  In ("references/" ++ f) (map snd links)
  <-> In ("references/" ++ f) (map snd (relative_links links)).
Proof.
  unfold relative_links. rewrite !in_map_iff. split.
  - intros [l [E H]]. exists l. split; [exact E|].
    apply filter_In. split; [exact H|]. now rewrite E.
  - intros [l [E H]]. exists l. split; [exact E|]. now apply filter_In in H.
Qed.

Lemma unlinked_iff links ref_files f :
  In f (unlinked ref_files (relative_links links)) <-> In f ref_files /\ ~ linked links f.
Proof.
  unfold unlinked, linked. rewrite filter_In, andb_true_iff, !negb_true_iff.
  rewrite raw_reference_href_is_relative.
  split.
  - intros [Hf [H1 H2]]. split; [exact Hf|]. intros [[h [Hh [Hs Hn]]]|H].
    + assert (M : mem f (linked_basenames (relative_links links)) = true).
      { apply mem_In. unfold linked_basenames. apply in_map_iff. exists h.
        split; [exact Hn|]. apply filter_In. now split. }
      congruence.
    + apply mem_In in H. congruence.
  - intros [Hf Hn]. split; [exact Hf|]. split.
    + apply not_true_iff_false. intros M. apply mem_In in M.
      unfold linked_basenames in M. apply in_map_iff in M.
      destruct M as [h [Hname Hh]]. apply filter_In in Hh. destruct Hh as [Hh Hs].
      apply Hn. left. now exists h.
    + apply not_true_iff_false. intros M. apply mem_In in M. apply Hn. now right.
Qed.

(** C8, as the code has it.  When [references] is a directory (or a link
    to one), its visible files are tested against the links of the body: a file is linked exactly
    when it is the last path component of a relative href beginning with
    references/, or the href references/<file> itself is among the hrefs
    (the whole href, nothing appended).  The block appends one record: WARN
    "Unlinked reference files" listing the unlinked files when there are
    any, PASS "All references linked" otherwise.  A file linked as
    references/<file> is never listed; a file that is not linked is listed
    exactly once.  When [references] is missing or is not a directory the
    block appends one INFO record. *)
Theorem references_check_verdict (pkg : package) (body : string) :
  let links := extract_markdown_links body in
  let rel := relative_links links in
  (forall children,
      subdirectory "references" (entries pkg) = Some children ->
      let ref_files := map fst (visible_files children) in
      let missing := unlinked ref_files rel in
      (forall f, In f missing <-> In f ref_files /\ ~ linked links f)
      /\ (missing = [] ->
          emits (check_references pkg rel)
                [("REFERENCES", "All references linked", PASS, "")])
      /\ (missing <> [] ->
          emits (check_references pkg rel)
                [("REFERENCES", "Unlinked reference files", WARN, join ", " missing)])
      /\ (forall f, In ("references/" ++ f) (map snd links) -> ~ In f missing)
      /\ (NoDup ref_files ->
          forall f, In f ref_files -> ~ linked links f -> count_occ string_dec missing f = 1))
  /\ (subdirectory "references" (entries pkg) = None ->
      emits (check_references pkg rel)
            [("REFERENCES", "References directory", INFO, "No references/ directory")]).
Proof.
  intros links rel. split.
  - intros children Hdir ref_files missing.
    split; [|split; [|split; [|split]]].
    + intros f. apply unlinked_iff.
    + intros H. unfold check_references. rewrite Hdir. fold ref_files. fold missing.
      rewrite H. apply emits_record.
    + intros H. unfold check_references. rewrite Hdir. fold ref_files. fold missing.
      destruct missing; [congruence|]. apply emits_record.
    + intros f Hf Hin. apply unlinked_iff in Hin. destruct Hin as [_ Hn].
      apply Hn. now right.
    + intros Hnd f Hf Hn.
      assert (Hin : In f missing) by (apply unlinked_iff; now split).
      assert (Hnd' : NoDup missing) by (apply NoDup_filter; exact Hnd).
      now apply (proj1 (NoDup_count_occ' string_dec missing) Hnd' f).
  - intros Hno. unfold check_references. rewrite Hno. apply emits_record.
Qed.

(** A link with extra path segments counts through its last component. *)
Example extra_segments_link_counts :
  emits (check_references
           {| entries := [Dir "references" [File "x.md" false ""]];
              target_exists := fun _ => Some true |}
           (relative_links (extract_markdown_links "[x](references/deep/x.md)")))
        [("REFERENCES", "All references linked", PASS, "")].
Proof. intros rs. reflexivity. Qed.

(** C8 as stated fails on a link with a query-like suffix: the body links
    references/x.md?raw=1, whose href begins with the literal path
    references/x.md, and the file x.md is still reported as unlinked. *)
Lemma query_suffix_link_does_not_count :
  let pkg := {| entries := [File "SKILL.md" false "";
                            Dir "references" [File "x.md" false ""]];
                target_exists := fun _ => Some true |} in
  let rel := relative_links (extract_markdown_links "[x](references/x.md?raw=1)") in
  map snd rel = ["references/x.md?raw=1"]
  /\ startswith "references/x.md?raw=1" "references/x.md" = true
  /\ emits (check_references pkg rel)
           [("REFERENCES", "Unlinked reference files", WARN, "x.md")].
Proof.
  cbv zeta. split; [reflexivity|]. split; [reflexivity|]. intros rs. reflexivity.
Qed.

(** ** The report *)

Lemma render_blocks_cons g gs :
  render_blocks (g :: gs) = (render_block g ++ render_tail gs)%list.
Proof. destruct gs; simpl; [now rewrite app_nil_r | reflexivity]. Qed.

Lemma fold_report_lines rs st :
  lines (fold_left report_step rs st)
  = (lines st ++ render_from (current_section st) rs)%list.
Proof.
  revert st. induction rs as [|r rs IH]; intros st; simpl.
  - now rewrite app_nil_r.
  - rewrite IH. simpl. rewrite <- !app_assoc. reflexivity.
Qed.

Lemma fold_report_counts rs st :
  pass_count (fold_left report_step rs st) = pass_count st + count_status PASS rs
  /\ warn_count (fold_left report_step rs st) = warn_count st + count_status WARN rs
  /\ fail_count (fold_left report_step rs st) = fail_count st + count_status FAIL rs.
Proof.
  revert st. induction rs as [|r rs IH]; intros st; simpl.
  - unfold count_status. simpl. lia.
  - destruct (IH (report_step st r)) as [H1 [H2 H3]]. rewrite H1, H2, H3.
    unfold count_status. simpl. destruct (rec_status r); simpl; lia.
Qed.

Lemma render_from_runs rs :
  forall current,
    render_from current rs =
    match runs rs with
    | [] => []
    | (s, g) :: tl =>
        ((if section_changed s current then
            (match current with Some _ => [""] | None => [] end) ++ [s]
          else [])
           ++ map record_line g ++ render_tail tl)%list
    end.
Proof.
  induction rs as [|r rest IH]; intros current; [reflexivity|].
  simpl. rewrite (IH (Some (rec_section r))).
  destruct (runs rest) as [|[s g] tl].
  - reflexivity.
  - simpl. destruct (String.eqb (rec_section r) s) eqn:E.
    + apply String.eqb_eq in E. rewrite <- E. rewrite String.eqb_refl. reflexivity.
    + rewrite String.eqb_sym, E. simpl. f_equal. f_equal. f_equal.
      destruct tl; simpl; [now rewrite app_nil_r | reflexivity].
Qed.

Lemma render_from_start rs : render_from None rs = render_blocks (runs rs).
Proof.
  rewrite render_from_runs. destruct (runs rs) as [|[s g] tl]; [reflexivity|].
  rewrite render_blocks_cons. reflexivity.
Qed.

(** The report of the code, line by line: one block per run. *)
Lemma report_lines_runs skill_path rs :
  report_lines skill_path rs
  = (report_title skill_path :: "" :: render_blocks (runs rs)
       ++ [""; summary_line (count_status FAIL rs) (count_status WARN rs)
                            (count_status PASS rs)])%list.
Proof.
  unfold report_lines. rewrite fold_report_lines.
  destruct (fold_report_counts rs
              {| lines := [report_title skill_path; ""]; current_section := None;
                 pass_count := 0; warn_count := 0; fail_count := 0 |}) as [H1 [H2 H3]].
  rewrite H1, H2, H3. simpl. now rewrite render_from_start.
Qed.

(** The runs keep every record, in emission order. *)
Lemma runs_flatten rs : concat (map snd (runs rs)) = rs.
Proof.
  induction rs as [|r rest IH]; [reflexivity|]. simpl.
  destruct (runs rest) as [|[s g] tl].
  - simpl in *. now rewrite <- IH.
  - destruct (String.eqb (rec_section r) s); simpl in *; now rewrite IH.
Qed.

(** ** Grouping by section *)

Lemma dedup_In x l : In x (dedup l) <-> In x l.
Proof.
  induction l as [|y l IH]; simpl; [reflexivity|].
  rewrite filter_In, IH, negb_true_iff. split.
  - intros [H|[H _]]; auto.
  - intros [H|H]; [now left|].
    destruct (String.eqb y x) eqn:E; [apply String.eqb_eq in E; now left | right; now split].
Qed.

Lemma dedup_NoDup l : NoDup (dedup l).
Proof.
  induction l as [|y l IH]; simpl; constructor.
  - intros H. apply filter_In in H. destruct H as [_ H].
    now rewrite String.eqb_refl in H.
  - now apply NoDup_filter.
Qed.

Lemma filter_nothing {A : Type} (p : A -> bool) l :
  existsb p l = false -> filter p l = [].
Proof.
  induction l as [|x l IH]; simpl; [reflexivity|].
  destruct (p x); simpl; [discriminate | exact IH].
Qed.

Lemma filter_map_swap {A B : Type} (f : A -> B) (p : B -> bool) l :
  filter p (map f l) = map f (filter (fun x => p (f x)) l).
Proof.
  induction l as [|x l IH]; simpl; [reflexivity|].
  destruct (p (f x)); simpl; now rewrite IH.
Qed.

(** Every group holds the records of its section. *)
Lemma groups_In s g rs : In (s, g) (groups rs) -> g = filter (in_section s) rs.
Proof.
  unfold groups. intros H. apply in_map_iff in H. destruct H as [x [E _]].
  now inversion E.
Qed.

Lemma groups_sections rs : map fst (groups rs) = sections_first_seen rs.
Proof.
  unfold groups. rewrite map_map. simpl. apply map_id.
Qed.

(** The groups of [r :: rest]: the group of [r] first, then the groups of
    [rest] for the other sections. *)
Lemma groups_cons r rest :
  groups (r :: rest)
  = (rec_section r, r :: filter (in_section (rec_section r)) rest)
      :: filter (fun g => negb (String.eqb (rec_section r) (fst g))) (groups rest).
Proof.
  unfold groups at 1. unfold sections_first_seen. simpl.
  unfold in_section at 1. rewrite String.eqb_refl. f_equal.
  unfold groups, sections_first_seen. rewrite filter_map_swap. simpl.
  apply map_ext_in. intros s Hs. apply filter_In in Hs. destruct Hs as [_ Hs].
  apply negb_true_iff in Hs. unfold in_section at 1. now rewrite Hs.
Qed.

Lemma runs_head s g tl rest :
  runs rest = (s, g) :: tl -> exists r rest', rest = r :: rest' /\ rec_section r = s.
Proof.
  destruct rest as [|r rest']; simpl; [discriminate|]. intros H.
  exists r, rest'. split; [reflexivity|].
  destruct (runs rest') as [|[s' g'] tl'].
  - now inversion H.
  - destruct (String.eqb (rec_section r) s') eqn:E; inversion H; subst; [|reflexivity].
    now apply String.eqb_eq in E.
Qed.

Lemma drop_section_head s r rest :
  in_section s r = false -> drop_section s (r :: rest) = r :: rest.
Proof. intros H. simpl. now rewrite H. Qed.

(** When the sections are contiguous, the runs are the groups. *)
Lemma runs_groups rs : contiguous rs = true -> runs rs = groups rs.
Proof.
  induction rs as [|r rest IH]; intros Hc; [reflexivity|].
  simpl in Hc. apply andb_true_iff in Hc. destruct Hc as [Hr Hc].
  apply negb_true_iff in Hr. specialize (IH Hc).
  rewrite groups_cons. simpl.
  destruct (runs rest) as [|[s g] tl] eqn:Eruns.
  - rewrite <- IH. simpl. destruct rest as [|r' rest']; [reflexivity|].
    simpl in Eruns. destruct (runs rest') as [|[? ?] ?];
      [discriminate | destruct (String.eqb _ _); discriminate].
  - destruct (runs_head _ _ _ _ Eruns) as [r' [rest' [Erest Hs]]].
    pose proof (dedup_NoDup (map rec_section rest)) as Hnd.
    fold (sections_first_seen rest) in Hnd. rewrite <- groups_sections, <- IH in Hnd.
    simpl in Hnd. inversion Hnd as [|x l Hnotin Hnd']; subst x l.
    assert (Hg : g = filter (in_section s) rest).
    { apply groups_In. rewrite <- IH. now left. }
    destruct (String.eqb (rec_section r) s) eqn:E.
    + apply String.eqb_eq in E. rewrite <- IH. simpl. rewrite E, String.eqb_refl. simpl.
      rewrite Hg. f_equal. symmetry. apply filter_all.
      intros [s' g'] Hin. simpl. apply negb_true_iff, String.eqb_neq.
      intros Heq. subst s'. apply Hnotin. apply in_map_iff. now exists (s, g').
    + assert (Hnone : existsb (in_section (rec_section r)) rest = false).
      { rewrite Erest in Hr |- *. rewrite drop_section_head in Hr; [exact Hr|].
        unfold in_section. now rewrite Hs, String.eqb_sym. }
      rewrite (filter_nothing _ _ Hnone). f_equal. rewrite <- IH. symmetry.
      apply filter_all. intros [s' g'] Hin. simpl. apply negb_true_iff, String.eqb_neq.
      intros Heq. subst s'.
      assert (Hin' : In (rec_section r) (map fst (groups rest))).
      { rewrite <- IH. apply in_map_iff. now exists (rec_section r, g'). }
      rewrite groups_sections in Hin'. unfold sections_first_seen in Hin'.
      apply (proj1 (dedup_In _ _)) in Hin'.
      apply in_map_iff in Hin'. destruct Hin' as [x [Hx Hxin]].
      assert (Hex : existsb (in_section (rec_section r)) rest = true).
      { apply existsb_exists. exists x. split; [exact Hxin|].
        unfold in_section. rewrite Hx. apply String.eqb_refl. }
      congruence.
Qed.

(** Blocks of records of one section each, under distinct sections, are
    contiguous. *)
Lemma drop_section_block s blk rest :
  Forall (fun r => rec_section r = s) blk ->
  drop_section s (blk ++ rest) = drop_section s rest.
Proof.
  induction 1 as [|r blk Hr _ IH]; [reflexivity|].
  simpl. unfold in_section at 1. now rewrite Hr, String.eqb_refl.
Qed.

Lemma existsb_drop_section s t rest :
  existsb (in_section s) rest = false ->
  existsb (in_section s) (drop_section t rest) = false.
Proof.
  induction rest as [|r rest IH]; [reflexivity|].
  intros H. simpl. destruct (in_section t r); [|exact H].
  apply IH. simpl in H. now apply orb_false_iff in H.
Qed.

Lemma contiguous_block s blk rest :
  Forall (fun r => rec_section r = s) blk ->
  existsb (in_section s) rest = false ->
  contiguous rest = true ->
  contiguous (blk ++ rest) = true.
Proof.
  intros Hblk Hrest Hc. induction Hblk as [|r blk Hr Hblk IH]; [exact Hc|].
  simpl. rewrite IH, andb_true_r. rewrite Hr.
  rewrite (drop_section_block s blk rest Hblk).
  now rewrite existsb_drop_section.
Qed.

Lemma section_absent s t blk :
  Forall (fun r => rec_section r = t) blk -> String.eqb t s = false ->
  existsb (in_section s) blk = false.
Proof.
  intros Hblk Hne. induction Hblk as [|r blk Hr _ IH]; [reflexivity|].
  simpl. unfold in_section at 1. now rewrite Hr, Hne.
Qed.

(** C9, as the code has it.  [format_report] depends on its arguments only.
    It opens a block at every change of section: for every record list its
    lines are the title, a blank line, one block per maximal run of
    consecutive records of one section (blocks separated by a blank line),
    a blank line and the summary; the runs hold all the records in emission
    order.  When the records of every section are contiguous the runs are
    the groups by section in first-seen order, each with its records in
    emission order, and the report is the grouped report of the
    specification.  For every record list the summary counts the FAIL, WARN
    and PASS records; INFO records are in no count. *)
Theorem format_report_blocks (skill_path : string) (results : list check_record) :
  report_lines skill_path results
  = (report_title skill_path :: "" :: render_blocks (runs results)
       ++ [""; summary_line (count_status FAIL results) (count_status WARN results)
                            (count_status PASS results)])%list
  /\ concat (map snd (runs results)) = results
  /\ count_status FAIL results + count_status WARN results + count_status PASS results
     + count_status INFO results = List.length results
  /\ (contiguous results = true ->
      runs results = groups results
      /\ format_report skill_path results = grouped_report skill_path results)
  /\ map fst (groups results) = sections_first_seen results
  /\ (forall s g, In (s, g) (groups results) -> g = filter (in_section s) results).
Proof.
  split; [|split; [|split; [|split; [|split]]]].
  - apply report_lines_runs.
  - apply runs_flatten.
  - induction results as [|r rs IH]; [reflexivity|].
    unfold count_status in *. simpl. destruct (rec_status r); simpl; lia.
  - intros Hcontiguous. pose proof (runs_groups results Hcontiguous) as Hruns.
    split; [exact Hruns|].
    unfold format_report, grouped_report. rewrite report_lines_runs, Hruns. reflexivity.
  - apply groups_sections.
  - intros s g. apply groups_In.
Qed.

(** C9 as stated fails on a list whose sections are not contiguous: with
    records of sections A, B, A the report opens the block A twice, so it is
    not the report grouped by section. *)
Lemma format_report_reopens_section :
  let results := [("A", "first", PASS, ""); ("B", "second", WARN, "");
                  ("A", "third", FAIL, "")] in
  report_lines "demo" results
  = ["=== Skill Analysis: demo ==="; "";
     "A"; "  first: PASS"; "";
     "B"; "  second: WARN"; "";
     "A"; "  third: FAIL"; "";
     "SUMMARY: 1 FAIL, 1 WARN, 1 PASS"]
  /\ map fst (groups results) = ["A"; "B"]
  /\ format_report "demo" results <> grouped_report "demo" results.
Proof.
  cbv zeta. split; [reflexivity|]. split; [reflexivity|].
  vm_compute. discriminate.
Qed.

(** The report of a list with contiguous sections, as [analyze_skill]
    produces them. *)
Example format_report_contiguous_example :
  contiguous [("STRUCTURE", "SKILL.md exists", PASS, "");
              ("SIZE", "SKILL.md line count", PASS, "3 lines");
              ("SIZE", "Body word count", WARN, "5001 words (recommend <= 5000)");
              ("FILES", "Total files", INFO, "1")] = true
  /\ format_report "skills/demo/"
       [("STRUCTURE", "SKILL.md exists", PASS, "");
        ("SIZE", "SKILL.md line count", PASS, "3 lines");
        ("SIZE", "Body word count", WARN, "5001 words (recommend <= 5000)");
        ("FILES", "Total files", INFO, "1")]
     = join nl ["=== Skill Analysis: demo ==="; "";
                "STRUCTURE"; "  SKILL.md exists: PASS"; "";
                "SIZE"; "  SKILL.md line count: PASS: 3 lines";
                "  Body word count: WARN: 5001 words (recommend <= 5000)"; "";
                "FILES"; "  Total files: INFO: 1"; "";
                "SUMMARY: 0 FAIL, 1 WARN, 2 PASS"].
Proof. split; reflexivity. Qed.

(** ** Every block appends its records *)

Lemma emits_for_each {A : Type} (l : list A) (body : A -> M unit) (out : A -> check_record) :
  (forall x, emits (body x) [out x]) -> emits (for_each l body) (map out l).
Proof.
  intros H. induction l as [|x l IH]; simpl.
  - apply emits_ret.
  - apply (emits_bind _ _ [out x] (map out l)); [apply H | exact IH].
Qed.



(** A key that is not a [str] makes the unexpected-keys check raise. *)
Example non_string_key_raises :
  check_unexpected [(YStr "name", YStr "demo"); (YBool true, YStr "push")] [] = inl TypeError.
Proof. reflexivity. Qed.

Lemma check_name_emits fm :
  exists r, emits (check_name fm) [r] /\ rec_section r = FRONTMATTER.
Proof.
  unfold check_name.
  destruct (negb (truthy _)); [|destruct (negb (match_kebab _)); [|destruct (Nat.ltb _ _)]];
    eexists; (split; [apply emits_record | reflexivity]).
Qed.

Lemma check_description_emits fm :
  exists r, emits (check_description fm) [r] /\ rec_section r = FRONTMATTER.
Proof.
  unfold check_description.
  destruct (negb (truthy _)); [|cbv zeta; destruct (Nat.ltb _ 50); [|destruct (Nat.ltb _ _)]];
    eexists; (split; [apply emits_record | reflexivity]).
Qed.

Lemma check_line_count_emits content :
  exists r, emits (check_line_count content) [r] /\ rec_section r = "SIZE"
            /\ rec_check r = "SKILL.md line count".
Proof.
  unfold check_line_count. destruct (Nat.ltb _ _);
    eexists; (split; [apply emits_record | split; reflexivity]).
Qed.

Lemma check_word_count_emits body :
  exists r, emits (check_word_count body) [r] /\ rec_section r = "SIZE"
            /\ rec_check r = "Body word count".
Proof.
  unfold check_word_count. destruct (Nat.ltb _ _);
    eexists; (split; [apply emits_record | split; reflexivity]).
Qed.

Lemma check_files_emits all_files :
  exists d t e, emits (check_files all_files) [d; t; e]
                /\ Forall (fun r => rec_section r = "FILES") [d; t; e]
                /\ rec_check d = "Directories" /\ rec_check t = "Total files"
                /\ rec_check e = "Extraneous files".
Proof.
  unfold check_files.
  destruct (filter _ all_files);
    do 3 eexists;
    (split; [apply (emits_bind _ _ [_] [_; _]);
             [apply emits_record
             | apply (emits_bind _ _ [_] [_]); apply emits_record]
            | split; [repeat constructor | repeat split]]).
Qed.

Lemma check_links_emits pkg rel :
  probes_answer pkg (map snd rel) ->
  exists r, emits (check_links pkg rel) [r] /\ rec_section r = "REFERENCES"
            /\ rec_check r = "Link integrity".
Proof.
  intros Hp. destruct (check_links_cases pkg rel) as [Hinfo [Hpass [Hfail _]]].
  destruct rel as [|l0 rel0].
  - eexists. split; [now apply Hinfo | split; reflexivity].
  - destruct (filter (broken_href pkg) (map snd (l0 :: rel0))) eqn:Eb.
    + eexists. split; [apply Hpass; [exact Hp | discriminate | reflexivity]
                      | split; reflexivity].
    + eexists. split; [apply Hfail; [exact Hp | discriminate] | split; reflexivity].
Qed.

Lemma check_references_emits pkg rel :
  exists r, emits (check_references pkg rel) [r] /\ rec_section r = "REFERENCES".
Proof.
  unfold check_references.
  destruct (subdirectory "references" (entries pkg)) as [ch|];
    [cbv zeta; destruct (unlinked _ _)|];
    eexists; (split; [apply emits_record | reflexivity]).
Qed.

Lemma check_scripts_emits pkg :
  exists rs, emits (check_scripts pkg) rs /\ rs <> []
             /\ Forall (fun r => rec_section r = "SCRIPTS") rs.
Proof.
  unfold check_scripts.
  destruct (subdirectory "scripts" (entries pkg)) as [ch|].
  - cbv zeta.
    exists (("SCRIPTS", "Scripts found", INFO, str_of_nat (List.length (visible_files ch)))
              :: map (fun s : string * bool =>
                        if snd s then ("SCRIPTS", fst s ++ " executable", PASS, "")
                        else ("SCRIPTS", fst s ++ " executable", WARN, "Not marked executable"))
                     (visible_files ch)).
    split; [|split; [discriminate|]].
    + apply (emits_bind _ _ [_] _); [apply emits_record|].
      apply emits_for_each. intros [name x]. simpl. destruct x; apply emits_record.
    + constructor; [reflexivity|]. apply Forall_forall. intros r Hr.
      apply in_map_iff in Hr. destruct Hr as [[name x] [E _]]. subst r.
      now destruct x.
  - eexists. split; [apply emits_record | split; [discriminate | repeat constructor]].
Qed.

Section Completion.

Variable yaml_safe_load : string -> load_outcome.

(** When the front matter does not parse, the block appends the FAIL record
    and nothing else. *)
Lemma check_frontmatter_error content e :
  parse_frontmatter yaml_safe_load content = inr (None, Some e) -> e <> "" ->
  emits (check_frontmatter yaml_safe_load content)
        [(FRONTMATTER, "Valid frontmatter", FAIL, e)].
Proof.
  intros H He. unfold check_frontmatter. rewrite H. simpl.
  apply String.eqb_neq in He. rewrite He. simpl. apply emits_record.
Qed.

(** When it parses, the block appends the PASS record and runs the three
    field checks. *)
Lemma check_frontmatter_parsed content fm :
  parse_frontmatter yaml_safe_load content = inr (Some fm, None) ->
  forall rs, check_frontmatter yaml_safe_load content rs
             = (record FRONTMATTER "Valid frontmatter" PASS "" ;;
                check_unexpected fm ;; check_name fm ;; check_description fm) rs.
Proof.
  intros H rs. unfold check_frontmatter. rewrite H. reflexivity.
Qed.

(** What the loader raises leaves the block. *)
Lemma check_frontmatter_raised content e :
  parse_frontmatter yaml_safe_load content = inl e ->
  forall rs, check_frontmatter yaml_safe_load content rs = inl e.
Proof.
  intros H rs. unfold check_frontmatter. now rewrite H.
Qed.


(** A block that appends [out] hands the longer list to what follows. *)
Lemma bind_emits {B : Type} (m : M unit) (k : M B) out rs :
  emits m out -> (m ;; k) rs = k (rs ++ out)%list.
Proof. intros H. unfold bind. now rewrite H. Qed.

(** The analysis of a document whose front-matter block appends
    [fm_records] and whose link probes all answer: every later block
    appends its records. *)
Lemma analyze_document_completes (pkg : package) (content : string) fm_records :
  let rel := relative_links (extract_markdown_links (body_of content)) in
  emits (check_frontmatter yaml_safe_load content) fm_records ->
  probes_answer pkg (map snd rel) ->
  exists lc wc dirs total extra link ref scripts,
    emits (analyze_document yaml_safe_load pkg content)
          (("STRUCTURE", "SKILL.md exists", PASS, "") :: fm_records
             ++ [lc; wc; dirs; total; extra; link; ref] ++ scripts)%list
    /\ emits (check_line_count content) [lc]
    /\ emits (check_word_count (body_of content)) [wc]
    /\ emits (check_files (walk (entries pkg))) [dirs; total; extra]
    /\ emits (check_links pkg rel) [link]
    /\ emits (check_references pkg rel) [ref]
    /\ emits (check_scripts pkg) scripts /\ scripts <> []
    /\ Forall (fun r => rec_section r = "SIZE") [lc; wc]
    /\ Forall (fun r => rec_section r = "FILES") [dirs; total; extra]
    /\ Forall (fun r => rec_section r = "REFERENCES") [link; ref]
    /\ Forall (fun r => rec_section r = "SCRIPTS") scripts.
Proof.
  intros rel Hfm Hp. set (body := body_of content). fold body in rel.
  destruct (check_line_count_emits content) as [lc [Hlc [Slc _]]].
  destruct (check_word_count_emits body) as [wc [Hwc [Swc _]]].
  destruct (check_files_emits (walk (entries pkg))) as [d [t [e [Hfiles [Sfiles _]]]]].
  destruct (check_links_emits pkg rel Hp) as [lk [Hlk [Slk _]]].
  destruct (check_references_emits pkg rel) as [rf [Hrf Srf]].
  destruct (check_scripts_emits pkg) as [sc [Hsc [Nsc Ssc]]].
  exists lc, wc, d, t, e, lk, rf, sc.
  split; [|repeat split; try assumption; repeat constructor; assumption].
  change (("STRUCTURE", "SKILL.md exists", PASS, "")
            :: fm_records ++ [lc; wc; d; t; e; lk; rf] ++ sc)%list
    with ([("STRUCTURE", "SKILL.md exists", PASS, "")] ++ fm_records
            ++ [lc] ++ [wc] ++ [d; t; e] ++ [lk] ++ [rf] ++ sc)%list.
  unfold analyze_document. fold body. fold rel.
  repeat (apply emits_bind; [first [apply emits_record | eassumption]|]).
  exact Hsc.
Qed.

(** The analysis of a document is left by the exception of the front-matter
    block, when that block raises. *)
Lemma analyze_document_frontmatter_raises (pkg : package) (content : string) e :
  (forall rs, check_frontmatter yaml_safe_load content rs = inl e) ->
  forall rs, analyze_document yaml_safe_load pkg content rs = inl e.
Proof.
  intros H rs. unfold analyze_document.
  rewrite (bind_emits _ _ _ rs (emits_record _ _ _ _)). unfold bind. now rewrite H.
Qed.

(** The analysis of a document is left by [OSError] when a link probe
    raises, although the earlier blocks have appended their records. *)
Lemma analyze_document_probe_raises (pkg : package) (content : string) fm_records :
  let rel := relative_links (extract_markdown_links (body_of content)) in
  emits (check_frontmatter yaml_safe_load content) fm_records ->
  (exists h, In h (map snd rel) /\ target_exists pkg h = None) ->
  forall rs, analyze_document yaml_safe_load pkg content rs = inl OSError.
Proof.
  intros rel Hfm Hno rs. set (body := body_of content). fold body in rel.
  destruct (check_line_count_emits content) as [lc [Hlc _]].
  destruct (check_word_count_emits body) as [wc [Hwc _]].
  destruct (check_files_emits (walk (entries pkg))) as [d [t [e [Hfiles _]]]].
  unfold analyze_document. fold body. fold rel.
  rewrite (bind_emits _ _ _ rs (emits_record _ _ _ _)).
  rewrite (bind_emits _ _ _ _ Hfm), (bind_emits _ _ _ _ Hlc), (bind_emits _ _ _ _ Hwc),
    (bind_emits _ _ _ _ Hfiles).
  unfold bind. now rewrite (proj2 (proj2 (proj2 (check_links_cases pkg rel))) Hno).
Qed.


(** The unexpected-keys check appends its record, or raises [TypeError]
    whatever the accumulator. *)
Lemma check_unexpected_outcome fm :
  (exists r, emits (check_unexpected fm) [r] /\ rec_section r = FRONTMATTER)
  \/ (forall rs, check_unexpected fm rs = inl TypeError).
Proof.
  unfold check_unexpected. destruct (unexpected_keys fm) as [|k ks].
  - left. eexists. split; [apply emits_record | reflexivity].
  - destruct (str_keys (k :: ks)).
    + left. eexists. split; [apply emits_record | reflexivity].
    + right. reflexivity.
Qed.

(** A key that is not a string makes the unexpected-keys check raise. *)
Lemma check_unexpected_raises fm :
  ~ string_keyed fm -> forall rs, check_unexpected fm rs = inl TypeError.
Proof.
  intros Hk. unfold check_unexpected.
  destruct (unexpected_keys fm) as [|k ks] eqn:E.
  - destruct Hk. intros k Hin.
    destruct k as [| | |s0| |]; try (now exists s0);
      (assert (Hin' : In _ (unexpected_keys fm))
         by (apply filter_In; split; [exact Hin | reflexivity]);
       rewrite E in Hin'; destruct Hin').
  - destruct (str_keys (k :: ks)) as [l|] eqn:Es; [|reflexivity].
    destruct Hk. intros k' Hin.
    destruct k' as [| | |s0| |]; try (now exists s0);
      (assert (Hin' : In _ (unexpected_keys fm))
         by (apply filter_In; split; [exact Hin | reflexivity]);
       rewrite E in Hin'; exfalso; revert Hin' Es; clear;
       generalize (k :: ks); intros ks0; revert l;
       induction ks0 as [|k0 ks0 IH]; intros l Hin Es; [destruct Hin|];
       simpl in Es; destruct k0; try discriminate;
       destruct Hin as [Hin|Hin]; [discriminate|];
       destruct (str_keys ks0) eqn:E0; [|discriminate];
       now apply (IH l0)).
Qed.

(** The front-matter block appends records of section FRONTMATTER, or
    raises. *)
Lemma check_frontmatter_outcome content :
  (exists out, emits (check_frontmatter yaml_safe_load content) out
               /\ Forall (fun r => rec_section r = FRONTMATTER) out)
  \/ (exists e, forall rs, check_frontmatter yaml_safe_load content rs = inl e).
Proof.
  destruct (parse_frontmatter yaml_safe_load content) as [err|r] eqn:Hp.
  - right. exists err. now apply check_frontmatter_raised.
  - destruct (proj1 (parse_frontmatter_outcomes yaml_safe_load content) r Hp)
      as [[fm Hr]|[err [Hr Herr]]]; subst r.
    + destruct (check_unexpected_outcome fm) as [[k [Hk Sk]]|Hraise].
      * destruct (check_name_emits fm) as [n [Hn Sn]].
        destruct (check_description_emits fm) as [d [Hd Sd]].
        left. exists [(FRONTMATTER, "Valid frontmatter", PASS, ""); k; n; d]. split.
        -- intros rs. rewrite (check_frontmatter_parsed content fm Hp).
           apply (emits_bind _ _ [_] [k; n; d]); [apply emits_record|].
           apply (emits_bind _ _ [k] [n; d]); [exact Hk|].
           apply (emits_bind _ _ [n] [d]); assumption.
        -- repeat constructor; assumption.
      * right. exists TypeError. intros rs.
        rewrite (check_frontmatter_parsed content fm Hp).
        unfold bind, record. now rewrite Hraise.
    + left. exists [(FRONTMATTER, "Valid frontmatter", FAIL, err)].
      split; [apply check_frontmatter_error; assumption | repeat constructor].
Qed.

(** X1.  The lists [analyze_skill] returns keep the records of every
    section together, so their report has one block per section, in
    first-seen order. *)
Lemma analyze_skill_contiguous (pkg : package) (results : list check_record)
      (skill_path : string) :
  analyze_skill yaml_safe_load pkg = inr results ->
  contiguous results = true
  /\ format_report skill_path results = grouped_report skill_path results.
Proof.
  intros H.
  assert (Hc : contiguous results = true).
  { unfold analyze_skill in H.
    destruct (lookup "SKILL.md" (entries pkg)) as [skill_md|];
      [|inversion H; reflexivity].
    destruct (entry_exists skill_md); cbn [negb] in H; [|inversion H; reflexivity].
    destruct (read_text skill_md) as [err|content]; [discriminate|].
    set (rel := relative_links (extract_markdown_links (body_of content))) in *.
    destruct (check_frontmatter_outcome content) as [[fm [Hfm Sfm]]|[e Hraise]];
      [|now rewrite (analyze_document_frontmatter_raises pkg content e Hraise) in H].
    destruct (probes_answer_decide pkg (map snd rel)) as [Hp|Hno];
      [|now rewrite (analyze_document_probe_raises pkg content fm Hfm Hno) in H].
    destruct (analyze_document_completes pkg content fm Hfm Hp)
      as [lc [wc [d [t [e [lk [rf [sc [Hall [_ [_ [_ [_ [_ [_ [_
            [Ssize [Sfiles [Sref Ssc]]]]]]]]]]]]]]]]]]].
    rewrite (Hall []) in H. inversion H; subst results. clear H Hall.
    rewrite <- (app_nil_r sc).
    change (contiguous
              ([("STRUCTURE", "SKILL.md exists", PASS, "")]
                 ++ (fm ++ ([lc; wc] ++ ([d; t; e] ++ ([lk; rf] ++ (sc ++ []))))))%list
            = true).
    apply (contiguous_block "STRUCTURE" [_]); [repeat constructor | |].
    { rewrite !existsb_app.
      rewrite (section_absent _ _ _ Sfm), (section_absent _ _ _ Ssize),
        (section_absent _ _ _ Sfiles), (section_absent _ _ _ Sref),
        (section_absent _ _ _ Ssc); reflexivity. }
    apply (contiguous_block FRONTMATTER); [exact Sfm | |].
    { rewrite !existsb_app.
      rewrite (section_absent _ _ _ Ssize), (section_absent _ _ _ Sfiles),
        (section_absent _ _ _ Sref), (section_absent _ _ _ Ssc); reflexivity. }
    apply (contiguous_block "SIZE"); [exact Ssize | |].
    { rewrite !existsb_app.
      rewrite (section_absent _ _ _ Sfiles), (section_absent _ _ _ Sref),
        (section_absent _ _ _ Ssc); reflexivity. }
    apply (contiguous_block "FILES"); [exact Sfiles | |].
    { rewrite !existsb_app.
      rewrite (section_absent _ _ _ Sref), (section_absent _ _ _ Ssc); reflexivity. }
    apply (contiguous_block "REFERENCES"); [exact Sref | |].
    { rewrite !existsb_app. rewrite (section_absent _ _ _ Ssc); reflexivity. }
    apply (contiguous_block "SCRIPTS"); [exact Ssc | reflexivity | reflexivity]. }
  split; [exact Hc|].
  unfold format_report, grouped_report.
  now rewrite report_lines_runs, (runs_groups results Hc).
Qed.

(** X2.  A mapping that has a key which is not a [str] makes the
    unexpected-keys check, and with it the whole analysis, raise
    [TypeError]: no record list is returned. *)
Lemma non_string_key_stops_analysis (pkg : package) (name : string) (x : bool)
      (content : string) (fm : dict) :
  lookup "SKILL.md" (entries pkg) = Some (File name x content) ->
  parse_frontmatter yaml_safe_load content = inr (Some fm, None) ->
  ~ string_keyed fm ->
  analyze_skill yaml_safe_load pkg = inl TypeError.
Proof.
  intros Hfile Hp Hk.
  pose proof (check_unexpected_raises fm Hk) as Hraise.
  unfold analyze_skill. rewrite Hfile. cbn [entry_exists negb read_text].
  unfold analyze_document, bind, record.
  rewrite (check_frontmatter_parsed content fm Hp).
  unfold bind, record. now rewrite Hraise.
Qed.

End Completion.

(** ** Concrete packages *)

(** C1 at an empty directory. *)
Lemma missing_skill_md_short_circuits_witness :
  lookup "SKILL.md" (entries empty_package) = None
  /\ analyze_skill sequence_loader empty_package
     = inr [("STRUCTURE", "SKILL.md exists", FAIL, "SKILL.md not found")]
  /\ format_report "empty" [("STRUCTURE", "SKILL.md exists", FAIL, "SKILL.md not found")]
     = join nl [report_title "empty"; "";
                "STRUCTURE";
                "  SKILL.md exists: FAIL: SKILL.md not found";
                "";
                "SUMMARY: 1 FAIL, 0 WARN, 0 PASS"].
Proof.
  split; [reflexivity|].
  apply (missing_skill_md_short_circuits sequence_loader empty_package "empty").
  reflexivity.
Defined.






(** The minimal valid package passes every check: no FAIL, no WARN. *)
Example minimal_package_report :
  match analyze_skill mapping_loader minimal_package with
  | inr results =>
      List.length results = 13
      /\ count_status FAIL results = 0 /\ count_status WARN results = 0
      /\ contiguous results = true
  | inl _ => False
  end.
Proof. vm_compute. repeat split. Qed.

(** X1 at the minimal valid package. *)
Lemma analyze_skill_contiguous_witness :
  exists results,
    analyze_skill mapping_loader minimal_package = inr results
    /\ contiguous results = true
    /\ format_report "my-skill" results = grouped_report "my-skill" results.
Proof.
  eexists. split; [vm_compute; reflexivity|].
  apply (analyze_skill_contiguous mapping_loader minimal_package _ "my-skill").
  vm_compute. reflexivity.
Defined.

Lemma boolean_key_not_string_keyed :
  ~ string_keyed [(YStr "name", YStr "demo"); (YBool true, YStr "push")].
Proof.
  intros H. destruct (H (YBool true)) as [s Hs]; [right; left; reflexivity | discriminate].
Defined.

(** X2 at a package whose front matter has the key [on]. *)
Lemma non_string_key_stops_analysis_witness :
  lookup "SKILL.md" (entries boolean_key_package)
  = Some (File "SKILL.md" false
               ("---" ++ nl ++ "name: demo" ++ nl ++ "on: push" ++ nl ++ "---" ++ nl))
  /\ analyze_skill boolean_key_loader boolean_key_package = inl TypeError.
Proof.
  split; [reflexivity|].
  apply (non_string_key_stops_analysis boolean_key_loader boolean_key_package "SKILL.md" false
           ("---" ++ nl ++ "name: demo" ++ nl ++ "on: push" ++ nl ++ "---" ++ nl)
           [(YStr "name", YStr "demo"); (YBool true, YStr "push")]).
  - reflexivity.
  - reflexivity.
  - exact boolean_key_not_string_keyed.
Defined.

(** * Further properties *)

(** ** Leading comment lines *)

Lemma skip_comment_line_no_lf line s :
  has_char LF s = false -> skip_comment_line line s = line.
Proof.
  induction s as [|c r IH]; [reflexivity|].
  cbn [has_char skip_comment_line].
  intros H. apply orb_false_iff in H. destruct H as [Hc Hr].
  rewrite Ascii.eqb_sym, Hc. now apply IH.
Qed.

Lemma skip_comment_line_result s :
  forall line p,
    line = p ++ s -> has_char LF p = false ->
    (startswith (skip_comment_line line s) "#" = false
     \/ has_char LF (skip_comment_line line s) = false)
    /\ exists q, line = q ++ skip_comment_line line s.
Proof.
  induction s as [|c r IH]; intros line p Hline Hp; cbn [skip_comment_line].
  - split.
    + right. rewrite Hline, append_nil_r. exact Hp.
    + exists "". reflexivity.
  - destruct (Ascii.eqb c LF) eqn:Ec.
    + destruct (startswith r "#") eqn:Es.
      * destruct (IH r "" eq_refl eq_refl) as [H [q Hq]]. split; [exact H|].
        exists (p ++ String c q). rewrite Hline, append_assoc_str. simpl. now rewrite <- Hq.
      * split; [now left|]. exists (p ++ String c ""). rewrite Hline, append_assoc_str.
        reflexivity.
    + apply (IH line (p ++ String c "")).
      * rewrite Hline, append_assoc_str. reflexivity.
      * rewrite has_char_app, Hp. cbn [has_char orb].
        now rewrite Ascii.eqb_sym, Ec.
Qed.

(** X4.  Stripping the leading comment lines is idempotent; what it
    returns is a suffix of the document; and the result still starts with
    [#] only when it is a last comment line without a line feed, which the
    loop leaves in place. *)
Theorem strip_leading_comments_idempotent (content : string) :
  strip_leading_comments (strip_leading_comments content) = strip_leading_comments content
  /\ (exists p, content = p ++ strip_leading_comments content)
  /\ (startswith (strip_leading_comments content) "#" = true ->
      has_char LF (strip_leading_comments content) = false).
Proof.
  assert (H : (startswith (strip_leading_comments content) "#" = false
               \/ has_char LF (strip_leading_comments content) = false)
              /\ exists q, content = q ++ strip_leading_comments content).
  { unfold strip_leading_comments. destruct (startswith content "#") eqn:E.
    - apply (skip_comment_line_result content content ""); reflexivity.
    - split; [now left | now exists ""]. }
  destruct H as [Hr Hq]. split; [|split].
  - set (r := strip_leading_comments content) in *.
    unfold strip_leading_comments at 1. destruct (startswith r "#") eqn:E; [|reflexivity].
    destruct Hr as [Hr|Hr]; [congruence|]. now apply skip_comment_line_no_lf.
  - exact Hq.
  - intros Hs. destruct Hr as [Hr|Hr]; [congruence | exact Hr].
Qed.

(** ** The parser and the body *)

Section Delimiters.

Variable yaml_safe_load : string -> load_outcome.

(** X5.  The parser and the body derivation cut the document at the same
    delimiters.  The parser reports "No YAML frontmatter found" or "Invalid
    frontmatter format" exactly when the body pattern does not match, and
    then the body is the whole raw document, comment lines and dashes
    included.  Otherwise the block handed to the YAML loader and the body are
    the two sides of one closing delimiter. *)
Theorem parser_and_body_agree (content : string) :
  let stripped := strip_leading_comments content in
  let parsed := parse_frontmatter yaml_safe_load content in
  ((parsed = inr (None, Some "No YAML frontmatter found")
    \/ parsed = inr (None, Some "Invalid frontmatter format"))
   <-> match_body stripped = None)
  /\ (match_body stripped = None -> body_of content = content)
  /\ (forall block,
        match_frontmatter stripped = Some block ->
        exists tail,
          stripped = DELIM_OPEN ++ block ++ DELIM_CLOSE ++ tail
          /\ (tail = body_of content \/ tail = nl ++ body_of content)).
Proof.
  intros stripped parsed.
  destruct (match_frontmatter_body stripped) as [Hnone Hsome].
  split; [|split].
  - unfold parsed.
    destruct (parse_frontmatter_cases yaml_safe_load content)
      as [[Hs H]|[[Hs [Hm H]]|[block [Hm H]]]];
      try fold stripped in Hs; try fold stripped in Hm.
    + rewrite H. simpl. split; [intros _ | now left].
      apply Hnone. destruct (match_frontmatter stripped) eqn:E; [|reflexivity].
      apply match_frontmatter_starts in E. congruence.
    + rewrite H. simpl. split; [intros _ | now right]. now apply Hnone.
    + rewrite H. split.
      * intros [E|E]; exfalso;
          destruct (yaml_safe_load block) as [v|msg|e]; [destruct v| | |destruct v| |];
          simpl in E; discriminate.
      * intros E. apply Hnone in E. congruence.
  - intros H. unfold body_of. fold stripped. now rewrite H.
  - intros block Hb. destruct (Hsome block Hb) as [tail [b [Hd [Hm Ht]]]].
    exists tail. split; [exact Hd|]. unfold body_of. fold stripped. now rewrite Hm.
Qed.

End Delimiters.

(** ** Path names *)

Lemma split_on_nonempty sep s : split_on sep s <> [].
Proof.
  destruct s as [|c r]; simpl; [discriminate|].
  destruct (Ascii.eqb c sep); [discriminate|].
  destruct (split_on sep r); discriminate.
Qed.

Lemma split_on_app sep a b :
  split_on sep (a ++ String sep b) = (split_on sep a ++ split_on sep b)%list.
Proof.
  induction a as [|c a IH]; cbn [append split_on].
  - now rewrite Ascii.eqb_refl.
  - destruct (Ascii.eqb c sep); [now rewrite IH|].
    rewrite IH. pose proof (split_on_nonempty sep a) as Hne.
    destruct (split_on sep a); [congruence | reflexivity].
Qed.

Lemma split_on_fresh sep s : has_char sep s = false -> split_on sep s = [s].
Proof.
  induction s as [|c r IH]; cbn [has_char split_on]; [reflexivity|].
  intros H. apply orb_false_iff in H. destruct H as [Hc Hr].
  rewrite Ascii.eqb_sym, Hc, (IH Hr). reflexivity.
Qed.

Lemma path_parts_app a b :
  path_parts (a ++ "/" ++ b) = (path_parts a ++ path_parts b)%list.
Proof.
  unfold path_parts. change (a ++ "/" ++ b) with (a ++ String "/" b).
  now rewrite split_on_app, filter_app.
Qed.

Lemma path_parts_name n : valid_name n -> path_parts n = [n].
Proof.
  intros [H1 [H2 H3]]. unfold path_parts. rewrite (split_on_fresh _ _ H3).
  cbn [filter]. apply String.eqb_neq in H1, H2. now rewrite H1, H2.
Qed.

(** X6.  The title of the report is the last component of the path however
    the path is written: a leading directory part and a trailing slash do
    not change the report. *)
Theorem report_names_last_component (dir name : string) (results : list check_record)
        (Hname : valid_name name) :
  report_title (dir ++ "/" ++ name) = "=== Skill Analysis: " ++ name ++ " ==="
  /\ format_report (dir ++ "/" ++ name) results = format_report name results
  /\ format_report (dir ++ "/" ++ name ++ "/") results = format_report name results.
Proof.
  assert (H1 : path_name (dir ++ "/" ++ name) = name).
  { unfold path_name. rewrite path_parts_app, (path_parts_name name Hname).
    apply last_last. }
  assert (H2 : path_name (dir ++ "/" ++ name ++ "/") = name).
  { unfold path_name. rewrite path_parts_app.
    change (name ++ "/") with (name ++ "/" ++ "").
    rewrite path_parts_app, (path_parts_name name Hname).
    change (path_parts "") with (@nil string).
    change ([name] ++ [])%list with [name]. apply last_last. }
  assert (H3 : path_name name = name).
  { unfold path_name. now rewrite (path_parts_name name Hname). }
  unfold format_report, report_lines, report_title. rewrite H1, H2, H3. repeat split.
Qed.

(** X6 at [skills/demo]. *)
Lemma report_names_last_component_witness :
  valid_name "demo"
  /\ report_title ("skills" ++ "/" ++ "demo") = "=== Skill Analysis: " ++ "demo" ++ " ==="
  /\ format_report ("skills" ++ "/" ++ "demo") [("SIZE", "Body word count", PASS, "2 words")]
     = format_report "demo" [("SIZE", "Body word count", PASS, "2 words")]
  /\ format_report ("skills" ++ "/" ++ "demo" ++ "/")
                   [("SIZE", "Body word count", PASS, "2 words")]
     = format_report "demo" [("SIZE", "Body word count", PASS, "2 words")].
Proof.
  assert (H : valid_name "demo") by (repeat split; discriminate).
  split; [exact H|].
  apply (report_names_last_component "skills" "demo" _ H).
Defined.

(** ** How the analysis can end *)

Section Outcomes.

Variable yaml_safe_load : string -> load_outcome.

(** X7.  How an exception ends the analysis.  Nothing in the script
    catches one after [parse_frontmatter], so each of these leaves
    [analyze_skill] without any list, also when records were appended
    before: [read_text] fails on [SKILL.md] ([IsADirectoryError] on a
    directory, the error of a file that cannot be read as text); the
    loader raises something other than [yaml.YAMLError]; the probe of a
    relative link target raises, after the front-matter, size and file
    blocks have run.  The branch that reads the keys never meets a missing
    mapping, since every error [parse_frontmatter] returns is a non-empty
    text: [AttributeError] leaves the analysis of a document only when the
    loader raised it. *)
Theorem analysis_failure_modes (pkg : package) :
  (forall skill_md err,
      lookup "SKILL.md" (entries pkg) = Some skill_md -> entry_exists skill_md = true ->
      read_text skill_md = inl err ->
      analyze_skill yaml_safe_load pkg = inl err)
  /\ (forall skill_md name children,
        lookup "SKILL.md" (entries pkg) = Some skill_md ->
        skill_md = Dir name children \/ skill_md = DirLink name children ->
        analyze_skill yaml_safe_load pkg = inl IsADirectoryError)
  /\ (forall skill_md content,
        lookup "SKILL.md" (entries pkg) = Some skill_md -> entry_exists skill_md = true ->
        read_text skill_md = inr content ->
        let rel := relative_links (extract_markdown_links (body_of content)) in
        (forall e, parse_frontmatter yaml_safe_load content = inl e ->
                   analyze_skill yaml_safe_load pkg = inl e)
        /\ (forall fm_records,
              emits (check_frontmatter yaml_safe_load content) fm_records ->
              (exists h, In h (map snd rel) /\ target_exists pkg h = None) ->
              analyze_skill yaml_safe_load pkg = inl OSError)
        /\ (analyze_skill yaml_safe_load pkg = inl AttributeError ->
            parse_frontmatter yaml_safe_load content = inl AttributeError)).
Proof.
  assert (Hread : forall skill_md err,
             lookup "SKILL.md" (entries pkg) = Some skill_md ->
             entry_exists skill_md = true -> read_text skill_md = inl err ->
             analyze_skill yaml_safe_load pkg = inl err).
  { intros skill_md err Hl He Hr. unfold analyze_skill. now rewrite Hl, He, Hr. }
  split; [exact Hread|]. split.
  - intros skill_md name children Hl [E|E]; subst skill_md;
      now apply (Hread _ IsADirectoryError Hl).
  - intros skill_md content Hl He Hr rel.
    assert (Hrun : analyze_skill yaml_safe_load pkg
                   = match analyze_document yaml_safe_load pkg content [] with
                     | inl e => inl e
                     | inr (_, results) => inr results
                     end).
    { unfold analyze_skill. now rewrite Hl, He, Hr. }
    split; [|split].
    + intros e Hp. rewrite Hrun.
      now rewrite (analyze_document_frontmatter_raises yaml_safe_load pkg content e
                     (check_frontmatter_raised yaml_safe_load content e Hp)).
    + intros fm_records Hfm Hno. rewrite Hrun.
      now rewrite (analyze_document_probe_raises yaml_safe_load pkg content fm_records Hfm Hno).
    + intros Hattr. rewrite Hrun in Hattr.
      destruct (parse_frontmatter yaml_safe_load content) as [e|r] eqn:Hp.
      * rewrite (analyze_document_frontmatter_raises yaml_safe_load pkg content e
                   (check_frontmatter_raised yaml_safe_load content e Hp)) in Hattr.
        now inversion Hattr.
      * exfalso.
        destruct (check_frontmatter_outcome yaml_safe_load content)
          as [[out [Hout _]]|[e Hraise]].
        -- destruct (probes_answer_decide pkg (map snd rel)) as [Hpa|Hno].
           ++ destruct (analyze_document_completes yaml_safe_load pkg content out Hout Hpa)
                as [lc [wc [d [t [e [lk [rf [sc [Hall _]]]]]]]]].
              rewrite (Hall []) in Hattr. discriminate.
           ++ rewrite (analyze_document_probe_raises yaml_safe_load pkg content out Hout Hno)
                in Hattr. discriminate.
        -- rewrite (analyze_document_frontmatter_raises yaml_safe_load pkg content e Hraise)
             in Hattr.
           inversion Hattr; subst e. clear Hattr.
           specialize (Hraise []).
           destruct (proj1 (parse_frontmatter_outcomes yaml_safe_load content) r Hp)
             as [[fm Hrr]|[err [Hrr Herr]]]; subst r.
           ++ rewrite (check_frontmatter_parsed yaml_safe_load content fm Hp) in Hraise.
              unfold bind, record in Hraise.
              destruct (check_unexpected_outcome fm) as [[k [Hk _]]|Hty].
              ** rewrite Hk in Hraise.
                 destruct (check_name_emits fm) as [n [Hn _]]. rewrite Hn in Hraise.
                 destruct (check_description_emits fm) as [d [Hd _]]. rewrite Hd in Hraise.
                 discriminate.
              ** rewrite Hty in Hraise. discriminate.
           ++ rewrite (check_frontmatter_error yaml_safe_load content err Hp Herr) in Hraise.
              discriminate.
Qed.

(** X8.  The command line.  The script exits with status 0 exactly when it
    is given one argument that names a directory and the analysis returns;
    it then prints the report.  FAIL records do not change the status: on a
    directory without [SKILL.md] it prints the report with "1 FAIL" and
    exits with 0.  Any other number of arguments prints the usage line and
    exits with 1; a path that is no directory prints the error line and
    exits with 1. *)
Theorem main_exit_status (isdir : string -> bool) (package_at : string -> package)
        (argv : list string) :
  (forall out,
      main yaml_safe_load isdir package_at argv = Exited out 0 <->
      exists prog dir results,
        argv = [prog; dir] /\ isdir dir = true
        /\ analyze_skill yaml_safe_load (package_at dir) = inr results
        /\ out = [format_report dir results])
  /\ (List.length argv <> 2 ->
      main yaml_safe_load isdir package_at argv = Exited [USAGE] 1)
  /\ (forall prog dir,
        argv = [prog; dir] -> isdir dir = false ->
        main yaml_safe_load isdir package_at argv
        = Exited ["Error: '" ++ dir ++ "' is not a directory"] 1)
  /\ (forall prog dir,
        argv = [prog; dir] -> isdir dir = true ->
        lookup "SKILL.md" (entries (package_at dir)) = None ->
        main yaml_safe_load isdir package_at argv
        = Exited [join nl [report_title dir; "";
                           "STRUCTURE";
                           "  SKILL.md exists: FAIL: SKILL.md not found";
                           "";
                           "SUMMARY: 1 FAIL, 0 WARN, 0 PASS"]] 0).
Proof.
  split; [|split; [|split]].
  - intros out. split.
    + intros H. unfold main in H.
      destruct argv as [|prog [|dir [|extra argv']]]; try discriminate.
      destruct (isdir dir) eqn:Ed; simpl in H; [|discriminate].
      destruct (analyze_skill yaml_safe_load (package_at dir)) as [e|results] eqn:Ea;
        [discriminate|].
      inversion H. now exists prog, dir, results.
    + intros [prog [dir [results [Ha [Hd [Hr Ho]]]]]]. subst argv out.
      unfold main. now rewrite Hd, Hr.
  - intros Hlen. destruct argv as [|prog [|dir [|extra argv']]]; try reflexivity.
    now destruct Hlen.
  - intros prog dir Ha Hd. subst argv. unfold main. now rewrite Hd.
  - intros prog dir Ha Hd Hmissing. subst argv. unfold main. rewrite Hd. simpl.
    unfold analyze_skill. rewrite Hmissing. reflexivity.
Qed.

End Outcomes.

(** A [SKILL.md] that is a directory, and one whose bytes are no text. *)
Example unreadable_skill_md :
  analyze_skill sequence_loader
    {| entries := [Dir "SKILL.md" []]; target_exists := fun _ => Some false |}
  = inl IsADirectoryError
  /\ analyze_skill sequence_loader
       {| entries := [Unreadable "SKILL.md" false UnicodeDecodeError];
          target_exists := fun _ => Some false |}
     = inl UnicodeDecodeError
  /\ analyze_skill sequence_loader
       {| entries := [Dangling "SKILL.md"]; target_exists := fun _ => Some false |}
     = inr [("STRUCTURE", "SKILL.md exists", FAIL, "SKILL.md not found")].
Proof. repeat split. Qed.

(** ** Unexpected keys *)

Lemma insert_sorted_In x y l : In y (insert_sorted x l) <-> y = x \/ In y l.
Proof.
  induction l as [|z l IH]; simpl.
  - intuition.
  - destruct (String.leb x z); simpl; [intuition|]. rewrite IH. intuition.
Qed.

Lemma insert_sorted_HdRel a x l :
  HdRel str_le a l -> str_le a x -> HdRel str_le a (insert_sorted x l).
Proof.
  intros Hl Hx. destruct l as [|z l]; simpl; [now constructor|].
  destruct (String.leb x z); constructor; [exact Hx|]. now inversion Hl.
Qed.

Lemma insert_sorted_Sorted x l : Sorted str_le l -> Sorted str_le (insert_sorted x l).
Proof.
  induction 1 as [|z l Hs IH Hd]; simpl; [repeat constructor|].
  destruct (String.leb x z) eqn:E.
  - constructor; [now constructor | now constructor].
  - constructor; [exact IH|]. apply insert_sorted_HdRel; [exact Hd|].
    destruct (String.leb_total x z) as [H|H]; [congruence | exact H].
Qed.

Lemma insert_sorted_NoDup x l : ~ In x l -> NoDup l -> NoDup (insert_sorted x l).
Proof.
  intros Hx Hl. induction Hl as [|z l Hz Hl IH]; simpl; [repeat constructor; auto|].
  destruct (String.leb x z).
  - constructor; [exact Hx | now constructor].
  - constructor.
    + rewrite insert_sorted_In. intros [E|Hin]; [subst; apply Hx; now left | contradiction].
    + apply IH. intros Hin. apply Hx. now right.
Qed.

(** [sorted] returns the same strings in ascending order. *)
Lemma sorted_spec l :
  Sorted str_le (sorted l) /\ (forall x, In x (sorted l) <-> In x l)
  /\ (NoDup l -> NoDup (sorted l)).
Proof.
  unfold sorted. induction l as [|x l [IH1 [IH2 IH3]]]; simpl.
  - repeat split; auto; constructor.
  - split; [now apply insert_sorted_Sorted|]. split.
    + intros y. rewrite insert_sorted_In, IH2. intuition.
    + intros Hnd. inversion Hnd as [|x' l' Hx Hl]; subst.
      apply insert_sorted_NoDup; [now rewrite IH2 | now apply IH3].
Qed.

Lemma str_keys_filter ks l :
  str_keys ks = Some l ->
  str_keys (filter (fun k => match k with
                             | YStr s => negb (mem s ALLOWED)
                             | _ => true
                             end) ks)
  = Some (filter (fun s => negb (mem s ALLOWED)) l).
Proof.
  revert l. induction ks as [|k ks IH]; intros l H; simpl in H.
  - inversion H. reflexivity.
  - destruct k as [| | |s| |]; try discriminate.
    destruct (str_keys ks) as [l0|] eqn:E; [|discriminate].
    inversion H; subst l. cbn [filter].
    destruct (negb (mem s ALLOWED)); cbn [str_keys]; now rewrite (IH l0 eq_refl).
Qed.

(** X9.  The unexpected-keys check on a mapping whose keys are the strings
    [ks].  It passes exactly when every key is one of the six allowed keys.
    Otherwise it warns with "Unexpected: " and the keys outside the allowed
    set, each once, in ascending order, separated by ", ". *)
Theorem unexpected_keys_report (fm : dict) (ks : list string)
        (Hkeys : str_keys (dict_keys fm) = Some ks) :
  let extra := filter (fun k => negb (mem k ALLOWED)) ks in
  (extra = [] <-> forall k, In k ks -> In k ALLOWED)
  /\ (extra = [] ->
      emits (check_unexpected fm) [(FRONTMATTER, "No unexpected keys", PASS, "")])
  /\ (extra <> [] ->
      exists listed,
        emits (check_unexpected fm)
              [(FRONTMATTER, "No unexpected keys", WARN, "Unexpected: " ++ join ", " listed)]
        /\ Sorted str_le listed /\ NoDup listed
        /\ forall k, In k listed <-> In k ks /\ ~ In k ALLOWED).
Proof.
  intros extra.
  pose proof (str_keys_filter _ _ Hkeys) as Hf. fold (unexpected_keys fm) in Hf.
  fold extra in Hf.
  split; [|split].
  - split.
    + intros Hnil k Hk. apply mem_In. destruct (mem k ALLOWED) eqn:E; [reflexivity|].
      assert (Hin : In k extra) by (apply filter_In; split; [exact Hk | now rewrite E]).
      rewrite Hnil in Hin. destruct Hin.
    + intros Hall. unfold extra. apply filter_nothing. apply not_true_iff_false.
      intros H. apply existsb_exists in H. destruct H as [k [Hk Hm]].
      apply Hall, mem_In in Hk. now rewrite Hk in Hm.
  - intros Hnil. unfold check_unexpected. rewrite Hnil in Hf.
    destruct (unexpected_keys fm) as [|k0 rest]; [apply emits_record|].
    simpl in Hf. destruct k0; try discriminate.
    destruct (str_keys rest); discriminate.
  - intros Hne. exists (sorted (dedup extra)).
    destruct (sorted_spec (dedup extra)) as [Hs [Hin Hnd]].
    split; [|split; [exact Hs | split; [apply Hnd, dedup_NoDup|]]].
    + unfold check_unexpected. destruct (unexpected_keys fm) as [|k0 rest] eqn:Eu.
      * simpl in Hf. inversion Hf. congruence.
      * rewrite Hf. apply emits_record.
    + intros k. rewrite Hin, dedup_In. unfold extra.
      rewrite filter_In, negb_true_iff, <- not_true_iff_false, mem_In. reflexivity.
Qed.

(** X9 at a front matter with the extra keys [version] and [author]. *)
Lemma unexpected_keys_report_witness :
  str_keys (dict_keys extra_keys_frontmatter) = Some ["name"; "version"; "author"]
  /\ let extra := filter (fun k => negb (mem k ALLOWED)) ["name"; "version"; "author"] in
     (extra = [] <-> forall k, In k ["name"; "version"; "author"] -> In k ALLOWED)
     /\ (extra = [] ->
         emits (check_unexpected extra_keys_frontmatter)
               [(FRONTMATTER, "No unexpected keys", PASS, "")])
     /\ (extra <> [] ->
         exists listed,
           emits (check_unexpected extra_keys_frontmatter)
                 [(FRONTMATTER, "No unexpected keys", WARN,
                   "Unexpected: " ++ join ", " listed)]
           /\ Sorted str_le listed /\ NoDup listed
           /\ forall k, In k listed <-> In k ["name"; "version"; "author"] /\ ~ In k ALLOWED).
Proof.
  split; [reflexivity|].
  apply (unexpected_keys_report extra_keys_frontmatter ["name"; "version"; "author"]).
  reflexivity.
Defined.

(** The warning of that front matter. *)
Example unexpected_keys_example :
  emits (check_unexpected extra_keys_frontmatter)
        [(FRONTMATTER, "No unexpected keys", WARN, "Unexpected: author, version")].
Proof. intros rs. reflexivity. Qed.

(** ** The walk over the package directory *)

(** The visible files of a directory are its regular files whose name does
    not start with a dot; sub-directories, special files and dangling links
    are not among them. *)
Lemma visible_files_In n x es :
  In (n, x) (visible_files es) <->
  exists e, In e es /\ regular_file e = Some (n, x) /\ hidden n = false.
Proof.
  induction es as [|e es IH]; cbn [visible_files].
  - split; [intros [] | intros [e [[] _]]].
  - destruct (regular_file e) as [[n0 x0]|] eqn:Er.
    + destruct (hidden n0) eqn:Eh.
      * rewrite IH. split.
        -- intros [e' [Hin H]]. exists e'. split; [now right | exact H].
        -- intros [e' [[E|Hin] [Hr Hh]]]; [|now exists e'].
           subst e'. rewrite Er in Hr. inversion Hr; subst. congruence.
      * cbn [In]. rewrite IH. split.
        -- intros [E|[e' [Hin H]]].
           ++ inversion E; subst. exists e. split; [now left | now split].
           ++ exists e'. split; [now right | exact H].
        -- intros [e' [[E|Hin] [Hr Hh]]].
           ++ subst e'. left. rewrite Er in Hr. now inversion Hr.
           ++ right. now exists e'.
    + rewrite IH. split.
      * intros [e' [Hin H]]. exists e'. split; [now right | exact H].
      * intros [e' [[E|Hin] [Hr Hh]]]; [subst e'; congruence | now exists e'].
Qed.

(** What [os.walk] lists as the files of a directory: every entry that is
    no directory, whatever else it is, hidden names left out. *)
Lemma visible_nondirs_In n es :
  In n (visible_nondirs es) <->
  exists e, In e es /\ dir_children e = None /\ entry_name e = n /\ hidden n = false.
Proof.
  unfold visible_nondirs. rewrite in_map_iff. split.
  - intros [e [En Hin]]. apply filter_In in Hin. destruct Hin as [Hin Hf].
    exists e. destruct (dir_children e); [discriminate|].
    apply negb_true_iff in Hf. subst n. now repeat split.
  - intros [e [Hin [Hd [En Hh]]]]. exists e. split; [exact En|].
    apply filter_In. split; [exact Hin|]. rewrite Hd, En, Hh. reflexivity.
Qed.

Lemma visible_nondirs_located rel es p :
  In p (map (fun f => rel ++ f) (visible_nondirs es)) <->
  exists e, In e es /\ dir_children e = None /\ hidden (entry_name e) = false
            /\ p = rel ++ entry_name e.
Proof.
  rewrite in_map_iff. split.
  - intros [n [Hp Hin]]. apply visible_nondirs_In in Hin.
    destruct Hin as [e [Hin [Hd [En Hh]]]]. subst n. exists e. now repeat split.
  - intros [e [Hin [Hd [Hh Hp]]]]. exists (entry_name e). split; [now symmetry|].
    apply visible_nondirs_In. now exists e.
Qed.

Lemma walk_dir_located e :
  forall rel p,
    In p (walk_dir rel e) <->
    exists dname children,
      e = Dir dname children /\ hidden dname = false
      /\ exists name, located (rel ++ dname ++ "/") children p name.
Proof.
  induction e as [e Hleaf|dname children IH] using entry_nested_ind; intros rel p.
  - split.
    + destruct e; try (intros []). discriminate Hleaf.
    + intros [d [ch [E _]]]. subst e. discriminate Hleaf.
  - cbn [walk_dir]. destruct (hidden dname) eqn:Eh.
    + split; [intros [] | intros [d [ch [E [Hh _]]]]; inversion E; congruence].
    + rewrite in_app_iff, visible_nondirs_located, in_flat_map. split.
      * intros [[e [Hin [Hd [Hh Hp]]]]|[e' [Hin Hp]]].
        -- exists dname, children. repeat split; [exact Eh|].
           exists (entry_name e). subst p. now apply (located_here _ _ e).
        -- exists dname, children. repeat split; [exact Eh|].
           rewrite Forall_forall in IH. apply (IH e' Hin) in Hp.
           destruct Hp as [d' [ch' [E [Hh [name Hl]]]]]. subst e'.
           exists name. now apply (located_below _ _ d' ch').
      * intros [d [ch [E [_ [name Hl]]]]]. inversion E; subst d ch. clear E.
        inversion Hl as [rel' es' e0 n Hin Hd Hn Hh|rel' es' d' ch' p' n Hin Hh Hl']; subst.
        -- left. now exists e0.
        -- right. exists (Dir d' ch'). split; [exact Hin|].
           rewrite Forall_forall in IH. apply (IH _ Hin). exists d', ch'.
           repeat split; [exact Hh|]. now exists name.
Qed.

Lemma walk_located es p :
  In p (walk es) <-> exists name, located "" es p name.
Proof.
  unfold walk. rewrite in_app_iff, in_flat_map. split.
  - intros [Hin|[e [Hin Hp]]].
    + apply visible_nondirs_In in Hin. destruct Hin as [e [Hin [Hd [En Hh]]]].
      exists p. now apply (located_here "" es e p).
    + apply walk_dir_located in Hp. destruct Hp as [d [ch [E [Hh [name Hl]]]]]. subst e.
      exists name. now apply (located_below "" es d ch).
  - intros [name Hl].
    inversion Hl as [rel' es' e0 n Hin Hd Hn Hh|rel' es' d' ch' p' n Hin Hh Hl']; subst.
    + left. apply visible_nondirs_In. now exists e0.
    + right. exists (Dir d' ch'). split; [exact Hin|]. apply walk_dir_located.
      exists d', ch'. repeat split; [exact Hh|]. now exists name.
Qed.

(** X10.  The files the analysis counts are exactly the entries of the
    package tree that are no directories, regular files or not (a FIFO and
    a dangling link count), whose name does not start with a dot and that
    are reached through directories proper whose names do not start with a
    dot: a hidden file, and everything below a hidden directory or behind a
    link to a directory, is left out at any depth.  "Total files" is their
    number. *)
Theorem walk_lists_visible_files (es : list entry) :
  (forall p, In p (walk es) <-> exists name, located "" es p name)
  /\ (forall e, In e es -> dir_children e = None -> hidden (entry_name e) = false ->
                In (entry_name e) (walk es))
  /\ (forall dname children p,
        In p (walk_dir "" (DirLink dname children)) -> False)
  /\ exists d t e,
       emits (check_files (walk es)) [d; t; e]
       /\ t = ("FILES", "Total files", INFO, str_of_nat (List.length (walk es))).
Proof.
  split; [|split; [|split]].
  - apply walk_located.
  - intros e Hin Hd Hh. apply walk_located. exists (entry_name e).
    now apply (located_here "" es e).
  - intros dname children p [].
  - unfold check_files. destruct (filter _ (walk es));
      do 3 eexists;
      (split; [apply (emits_bind _ _ [_] [_; _]);
               [apply emits_record
               | apply (emits_bind _ _ [_] [_]); apply emits_record]
              | reflexivity]).
Qed.

(** The walk of a tree with a hidden file, a hidden directory, an empty
    directory and a nested one. *)
Example walk_nested_entries :
  walk nested_entries = ["SKILL.md"; "references/guide.md"; "references/deep/CHANGELOG.md"].
Proof. reflexivity. Qed.

(** The walk of a tree with a FIFO, a dangling link and a link to a
    directory: the first two are counted, the files behind the link are
    not. *)
Example walk_special_entries :
  walk [File "SKILL.md" false ""; Special "queue" (inl OSError); Dangling "old.md";
        DirLink "shared" [File "README.md" false ""];
        Dir "assets" [Dangling "logo.png"; DirLink "more" [File "x.md" false ""]]]
  = ["SKILL.md"; "queue"; "old.md"; "assets/logo.png"].
Proof. reflexivity. Qed.

(** ** Extraneous files and directories *)

Lemma basename_of_name rel name :
  has_char "/" name = false -> rel = "" \/ (exists r, rel = r ++ "/") ->
  basename (rel ++ name) = name.
Proof.
  intros Hn [Hr|[r Hr]]; subst rel; unfold basename.
  - cbn [append]. now rewrite (split_on_fresh _ _ Hn).
  - rewrite append_assoc_str. change ("/" ++ name) with (String "/" name).
    rewrite split_on_app, (split_on_fresh _ _ Hn). apply last_last.
Qed.

Lemma located_basename rel es p name :
  located rel es p name ->
  has_char "/" name = false -> rel = "" \/ (exists r, rel = r ++ "/") ->
  basename p = name.
Proof.
  induction 1 as [rel es e name Hin Hd En Hh|rel es dname ch p name Hin Hh Hl IH];
    intros Hn Hrel.
  - now apply basename_of_name.
  - apply IH; [exact Hn|]. right. exists (rel ++ dname).
    now rewrite append_assoc_str.
Qed.

Lemma valid_nameb_spec n : valid_nameb n = true <-> valid_name n.
Proof.
  unfold valid_nameb, valid_name.
  rewrite !andb_true_iff, !negb_true_iff, !String.eqb_neq. tauto.
Qed.

Lemma located_name_listed rel es p name :
  located rel es p name -> In name (flat_map entry_names es).
Proof.
  induction 1 as [rel es e name Hin Hd En Hh|rel es dname ch p name Hin Hh Hl IH];
    apply in_flat_map.
  - exists e. split; [exact Hin|]. subst name.
    destruct e; try discriminate Hd; now left.
  - exists (Dir dname ch). split; [exact Hin | now right].
Qed.

Lemma names_valid_located es p name :
  names_valid es = true -> located "" es p name -> valid_name name.
Proof.
  intros Hv Hl. apply valid_nameb_spec. unfold names_valid in Hv.
  rewrite forallb_forall in Hv. apply Hv. now apply (located_name_listed "" es p).
Qed.

Lemma names_valid_children es dname ch :
  names_valid es = true -> In (Dir dname ch) es ->
  valid_name dname /\ names_valid ch = true.
Proof.
  unfold names_valid. rewrite !forallb_forall. intros Hv Hin. split.
  - apply valid_nameb_spec, Hv, in_flat_map. exists (Dir dname ch). split; [exact Hin | now left].
  - intros n Hn. apply Hv, in_flat_map. exists (Dir dname ch). split; [exact Hin | now right].
Qed.

(** X11.  The extraneous-files check, on a tree whose entries have proper
    names.  It looks at the own name of every counted file, at any depth:
    the files it lists are the counted files whose name is on the deny
    list, and it passes with "none detected" exactly when there is none.  A
    deny-listed file below a hidden directory is not counted and so not
    reported. *)
Theorem extraneous_files_report (es : list entry) (Hnames : names_valid es = true) :
  let found := filter (fun f => mem (basename f) EXTRANEOUS) (walk es) in
  (forall p, In p found <-> exists name, located "" es p name /\ In name EXTRANEOUS)
  /\ (found = [] ->
      exists d t, emits (check_files (walk es))
                        [d; t; ("FILES", "Extraneous files", PASS, "none detected")])
  /\ (found <> [] ->
      exists d t, emits (check_files (walk es))
                        [d; t; ("FILES", "Extraneous files", WARN, join ", " found)]).
Proof.
  intros found.
  assert (Hbase : forall p name, located "" es p name -> basename p = name).
  { intros p name Hl. apply (located_basename _ _ _ _ Hl); [|now left].
    now destruct (names_valid_located es p name Hnames Hl) as [_ [_ H]]. }
  split; [|split].
  - intros p. unfold found. rewrite filter_In, mem_In.
    split.
    + intros [Hin Hb]. apply walk_located in Hin. destruct Hin as [name Hl].
      exists name. split; [exact Hl|]. now rewrite <- (Hbase p name Hl).
    + intros [name [Hl Hd]]. split; [apply walk_located; now exists name|].
      now rewrite (Hbase p name Hl).
  - intros Hnil. unfold check_files. fold found. rewrite Hnil.
    do 2 eexists. apply (emits_bind _ _ [_] [_; _]); [apply emits_record|].
    apply (emits_bind _ _ [_] [_]); apply emits_record.
  - intros Hne. unfold check_files. fold found. destruct found; [congruence|].
    do 2 eexists. apply (emits_bind _ _ [_] [_; _]); [apply emits_record|].
    apply (emits_bind _ _ [_] [_]); apply emits_record.
Qed.

(** X11 at the nested tree: the change log is reported with its path, the
    README below [.git] is not. *)
Lemma extraneous_files_report_witness :
  names_valid nested_entries = true
  /\ let found := filter (fun f => mem (basename f) EXTRANEOUS) (walk nested_entries) in
     (forall p, In p found <->
                exists name, located "" nested_entries p name /\ In name EXTRANEOUS)
     /\ (found = [] ->
         exists d t, emits (check_files (walk nested_entries))
                           [d; t; ("FILES", "Extraneous files", PASS, "none detected")])
     /\ (found <> [] ->
         exists d t, emits (check_files (walk nested_entries))
                           [d; t; ("FILES", "Extraneous files", WARN, join ", " found)]).
Proof.
  split; [reflexivity|].
  apply (extraneous_files_report nested_entries). reflexivity.
Defined.

Example extraneous_files_example :
  check_files (walk nested_entries) []
  = inr (tt, [("FILES", "Directories", INFO, "references");
              ("FILES", "Total files", INFO, "3");
              ("FILES", "Extraneous files", WARN, "references/deep/CHANGELOG.md")]).
Proof. reflexivity. Qed.

Lemma located_suffix rel es p name :
  located rel es p name -> valid_name name ->
  exists q, p = rel ++ q /\ path_parts q <> [].
Proof.
  induction 1 as [rel es e name Hin Hd En Hh|rel es dname ch p name Hin Hh Hl IH];
    intros Hn.
  - exists name. split; [reflexivity|]. rewrite (path_parts_name name Hn). discriminate.
  - destruct (IH Hn) as [q [Hp Hq]]. exists (dname ++ "/" ++ q). split.
    + now rewrite Hp, !append_assoc_str.
    + rewrite path_parts_app. intros H. apply app_eq_nil in H. now destruct H.
Qed.

(** The first component of the path of a file below a top-level directory. *)
Lemma located_first_component dname ch p name :
  valid_name dname -> valid_name name -> located (dname ++ "/") ch p name ->
  exists c cs, path_parts p = dname :: c :: cs.
Proof.
  intros Hd Hn Hl. destruct (located_suffix _ _ _ _ Hl Hn) as [q [Hp Hq]].
  rewrite Hp, append_assoc_str, path_parts_app, (path_parts_name dname Hd).
  destruct (path_parts q) as [|c cs]; [congruence|]. now exists c, cs.
Qed.

(** X12.  The "Directories" record, on a tree whose entries have proper
    names.  It names exactly the top-level directories that do not start
    with a dot and hold at least one counted file at some depth: an empty
    directory, or one with hidden content only, is not named.  The names
    come once each in ascending order, separated by ", "; without any the
    detail is "none". *)
Theorem directories_report (es : list entry) (Hnames : names_valid es = true) :
  let dirs := dirs_present (walk es) in
  (forall d, In d dirs <->
             exists children p name,
               In (Dir d children) es /\ hidden d = false
               /\ located (d ++ "/") children p name)
  /\ exists detail t e,
       emits (check_files (walk es)) [("FILES", "Directories", INFO, detail); t; e]
       /\ (dirs = [] -> detail = "none")
       /\ (dirs <> [] ->
           exists listed,
             detail = join ", " listed /\ Sorted str_le listed /\ NoDup listed
             /\ forall d, In d listed <-> In d dirs).
Proof.
  intros dirs. split.
  - intros d. unfold dirs, dirs_present. rewrite dedup_In, in_flat_map. split.
    + intros [p [Hp Hd]]. apply walk_located in Hp. destruct Hp as [name Hl].
      pose proof (names_valid_located es p name Hnames Hl) as Hn.
      inversion Hl as [rel' es' e0 n Hin Hd0 Hn0 Hh|rel' es' dn ch p' n Hin Hh Hl'];
        subst.
      * change ("" ++ entry_name e0) with (entry_name e0) in Hd.
        rewrite (path_parts_name _ Hn) in Hd. destruct Hd.
      * destruct (names_valid_children es dn ch Hnames Hin) as [Hdn _].
        change ("" ++ dn ++ "/") with (dn ++ "/") in Hl'.
        destruct (located_first_component dn ch p name Hdn Hn Hl') as [c [cs Hparts]].
        rewrite Hparts in Hd. destruct Hd as [Hd|[]]. subst d.
        now exists ch, p, name.
    + intros [ch [p [name [Hin [Hh Hl]]]]].
      assert (Hl0 : located "" es p name) by now apply (located_below "" es d ch).
      pose proof (names_valid_located es p name Hnames Hl0) as Hn.
      destruct (names_valid_children es d ch Hnames Hin) as [Hdn _].
      destruct (located_first_component d ch p name Hdn Hn Hl) as [c [cs Hparts]].
      exists p. split; [apply walk_located; now exists name|].
      rewrite Hparts. now left.
  - unfold check_files. fold dirs.
    exists (match dirs with [] => "none" | d0 :: ds => join ", " (sorted (d0 :: ds)) end).
    assert (Hrest : exists t e,
               emits (record "FILES" "Total files" INFO (str_of_nat (List.length (walk es))) ;;
                      match filter (fun f => mem (basename f) EXTRANEOUS) (walk es) with
                      | [] => record "FILES" "Extraneous files" PASS "none detected"
                      | found_extraneous =>
                          record "FILES" "Extraneous files" WARN (join ", " found_extraneous)
                      end) [t; e]).
    { destruct (filter _ (walk es)); do 2 eexists;
        apply (emits_bind _ _ [_] [_]); apply emits_record. }
    destruct Hrest as [t [e Hrest]]. exists t, e. split; [|split].
    + apply (emits_bind _ _ [_] [t; e]); [apply emits_record | exact Hrest].
    + intros Hnil. now rewrite Hnil.
    + intros Hne. exists (sorted dirs).
      destruct (sorted_spec dirs) as [Hs [Hin Hnd]].
      split; [destruct dirs; [congruence | reflexivity]|].
      split; [exact Hs|]. split; [apply Hnd; unfold dirs, dirs_present; apply dedup_NoDup|].
      exact Hin.
Qed.

(** X12 at the nested tree: [references] is named; [.git] and [empty] are
    not. *)
Lemma directories_report_witness :
  names_valid nested_entries = true
  /\ let dirs := dirs_present (walk nested_entries) in
     (forall d, In d dirs <->
                exists children p name,
                  In (Dir d children) nested_entries /\ hidden d = false
                  /\ located (d ++ "/") children p name)
     /\ exists detail t e,
          emits (check_files (walk nested_entries))
                [("FILES", "Directories", INFO, detail); t; e]
          /\ (dirs = [] -> detail = "none")
          /\ (dirs <> [] ->
              exists listed,
                detail = join ", " listed /\ Sorted str_le listed /\ NoDup listed
                /\ forall d, In d listed <-> In d dirs).
Proof.
  split; [reflexivity|].
  apply (directories_report nested_entries). reflexivity.
Defined.

(** ** Scripts *)

Lemma count_status_cons st r l :
  count_status st (r :: l)
  = if status_eqb (rec_status r) st then S (count_status st l) else count_status st l.
Proof.
  unfold count_status. cbn [filter]. now destruct (status_eqb (rec_status r) st).
Qed.

Lemma script_records_counts scripts :
  count_status PASS (map script_record scripts) = List.length (filter snd scripts)
  /\ count_status WARN (map script_record scripts)
     = List.length (filter (fun s => negb (snd s)) scripts)
  /\ count_status FAIL (map script_record scripts) = 0
  /\ count_status INFO (map script_record scripts) = 0.
Proof.
  induction scripts as [|[n x] scripts [H1 [H2 [H3 H4]]]]; [repeat split|].
  cbn [map filter snd]. rewrite !count_status_cons.
  destruct x; cbn; rewrite H1, H2, H3, H4; repeat split.
Qed.

(** X13.  The scripts block when [scripts] is a directory (or a link to
    one).  After the INFO
    record with the number of scripts comes exactly one record per regular
    file of the directory whose name does not start with a dot, in listing
    order, named "<file> executable": PASS when the file is executable,
    WARN otherwise, never FAIL.  Hidden files and sub-directories are
    neither counted nor checked. *)
Theorem scripts_report (pkg : package) (children : list entry)
        (Hdir : subdirectory "scripts" (entries pkg) = Some children) :
  let scripts := visible_files children in
  emits (check_scripts pkg)
        (("SCRIPTS", "Scripts found", INFO, str_of_nat (List.length scripts))
           :: map script_record scripts)
  /\ map rec_check (map script_record scripts)
     = map (fun s => fst s ++ " executable") scripts
  /\ count_status PASS (map script_record scripts) = List.length (filter snd scripts)
  /\ count_status WARN (map script_record scripts)
     = List.length (filter (fun s => negb (snd s)) scripts)
  /\ count_status FAIL (map script_record scripts) = 0
  /\ (forall n x, In (n, x) scripts <->
                  exists e, In e children /\ regular_file e = Some (n, x)
                            /\ hidden n = false).
Proof.
  intros scripts. destruct (script_records_counts scripts) as [H1 [H2 [H3 _]]].
  split; [|split; [|split; [|split; [|split]]]]; try assumption.
  - unfold check_scripts. rewrite Hdir. fold scripts.
    apply (emits_bind _ _ [_] _); [apply emits_record|].
    apply (emits_for_each scripts _ script_record).
    intros [n x]. unfold script_record. simpl. destruct x; apply emits_record.
  - rewrite map_map. apply map_ext. intros [n x]. unfold script_record. simpl.
    now destruct x.
  - intros n x. apply visible_files_In.
Qed.

(** X13 at a package with an executable script, a script that is not
    executable, a hidden file and a sub-directory. *)
Lemma scripts_report_witness :
  subdirectory "scripts" (entries scripts_package)
  = Some [File "run.sh" true ""; File ".env" false "";
          Dir "lib" [File "util.py" false ""];
          File "check.py" false ""]
  /\ emits (check_scripts scripts_package)
           [("SCRIPTS", "Scripts found", INFO, "2");
            ("SCRIPTS", "run.sh executable", PASS, "");
            ("SCRIPTS", "check.py executable", WARN, "Not marked executable")].
Proof.
  split; [reflexivity|].
  apply (scripts_report scripts_package
           [File "run.sh" true ""; File ".env" false "";
            Dir "lib" [File "util.py" false ""]; File "check.py" false ""]).
  reflexivity.
Defined.

(** ** Links as they are written *)

(** X14.  Every link [extract_markdown_links] returns is well formed and
    is written in the text once the fenced code blocks are removed: its
    text holds no closing bracket, its href is not empty and holds no
    closing parenthesis, and the markup of the link occurs in the stripped
    text. *)
Theorem extracted_links_are_written (content text href : string)
        (Hin : In (text, href) (extract_markdown_links content)) :
  has_char "]" text = false /\ href <> "" /\ has_char ")" href = false
  /\ contains (link_markup text href) (kept (re_scan fence_at 0 content)).
Proof.
  unfold extract_markdown_links in Hin.
  destruct (re_scan_hit_place _ _ _ _ Hin) as [before [here [n [Hs Hh]]]].
  destruct (link_at_shape _ _ _ _ Hh) as [[rest Hrest] [Ht [Hne [Hh' _]]]].
  repeat split; try assumption.
  exists before, rest. now rewrite Hs, Hrest.
Qed.

(** X14 at a text with one link outside and one inside a fenced block. *)
Lemma extracted_links_are_written_witness :
  In ("guide", "references/guide.md")
     (extract_markdown_links "See [guide](references/guide.md). ```[no](x.md)```")
  /\ has_char "]" "guide" = false /\ "references/guide.md" <> ""
  /\ has_char ")" "references/guide.md" = false
  /\ contains (link_markup "guide" "references/guide.md")
              (kept (re_scan fence_at 0 "See [guide](references/guide.md). ```[no](x.md)```")).
Proof.
  assert (H : In ("guide", "references/guide.md")
                 (extract_markdown_links
                    "See [guide](references/guide.md). ```[no](x.md)```"))
    by (left; reflexivity).
  split; [exact H|].
  apply (extracted_links_are_written _ _ _ H).
Defined.

(** X15.  A link written in plain surroundings is read back: when the text
    before and after holds no opening bracket and no backtick, and the link
    text and href are free of the closing character of their part and of
    backticks, [extract_markdown_links] returns that link and nothing
    else. *)
Theorem written_link_is_extracted (before text href after : string)
        (Hbefore : has_char "[" before = false /\ has_char BACKTICK before = false)
        (Hafter : has_char "[" after = false /\ has_char BACKTICK after = false)
        (Htext : has_char "]" text = false /\ has_char BACKTICK text = false)
        (Hhref : href <> "" /\ has_char ")" href = false /\ has_char BACKTICK href = false) :
  extract_markdown_links (before ++ link_markup text href ++ after) = [(text, href)].
Proof.
  destruct Hbefore as [Hb1 Hb2], Hafter as [Ha1 Ha2], Htext as [Ht1 Ht2],
    Hhref as [Hh0 [Hh1 Hh2]].
  unfold extract_markdown_links.
  assert (Hplain : has_char BACKTICK (before ++ link_markup text href ++ after) = false).
  { unfold link_markup. rewrite !has_char_app, Hb2, Ht2, Hh2, Ha2. reflexivity. }
  rewrite (scan_fences_no_backtick _ Hplain). rewrite (scan_links_plain before _ Hb1).
  remember (link_markup text href) as m eqn:Em.
  assert (Hm : exists r, m = String "[" r) by (subst m; now eexists).
  destruct Hm as [r Hr].
  assert (Hhit : link_at (m ++ after) = Some ((text, href), String.length m))
    by (subst m; now apply link_at_hit).
  rewrite Hr in Hhit |- *. cbn [append re_scan]. cbn [append] in Hhit. rewrite Hhit.
  cbn [hits String.length pred]. f_equal.
  rewrite re_scan_skip.
  now rewrite (scan_links_no_bracket after Ha1).
Qed.

(** X15 at a sentence with one link. *)
Lemma written_link_is_extracted_witness :
  extract_markdown_links ("See " ++ link_markup "the guide" "references/guide.md" ++ " first.")
  = [("the guide", "references/guide.md")].
Proof.
  apply (written_link_is_extracted "See " "the guide" "references/guide.md" " first.");
    repeat split; discriminate.
Defined.

(** X16.  What stands inside a fenced code block has no influence on the
    links: when the text before the block and the code hold no backtick,
    the links of the text with the block are the links of the text with the
    block cut out. *)
Theorem fenced_code_is_ignored (before code after : string)
        (Hbefore : has_char BACKTICK before = false)
        (Hcode : has_char BACKTICK code = false) :
  extract_markdown_links (before ++ FENCE ++ code ++ FENCE ++ after)
  = extract_markdown_links (before ++ after).
Proof.
  unfold extract_markdown_links. f_equal. f_equal.
  rewrite !(scan_fences_plain before _ Hbefore). f_equal.
  assert (Hhit : fence_at (FENCE ++ code ++ FENCE ++ after)
                 = Some (tt, 3 + String.length code + 3)).
  { unfold fence_at, startswith. rewrite prefix_of_app.
    change (drop 3 (FENCE ++ code ++ FENCE ++ after)) with (code ++ FENCE ++ after).
    now rewrite (partition_at_fence code after Hcode). }
  assert (Hs : FENCE ++ code ++ FENCE ++ after
               = String BACKTICK (("``" ++ code ++ FENCE) ++ after)).
  { unfold FENCE. cbn [append]. now rewrite append_assoc_str. }
  rewrite Hs in Hhit |- *. cbn [re_scan]. rewrite Hhit. cbn [kept].
  replace (pred (3 + String.length code + 3))
    with (String.length ("``" ++ code ++ FENCE)).
  - now rewrite re_scan_skip.
  - cbn [append String.length]. rewrite length_append_str. cbn. lia.
Qed.

(** X16 at a text whose only link to [x.md] is inside a fenced block. *)
Lemma fenced_code_is_ignored_witness :
  extract_markdown_links ("Run: " ++ FENCE ++ "see [x](x.md)" ++ FENCE ++ " then [y](y.md)")
  = extract_markdown_links ("Run: " ++ " then [y](y.md)").
Proof.
  apply (fenced_code_is_ignored "Run: " "see [x](x.md)" " then [y](y.md)"); reflexivity.
Defined.

(** ** The names the kebab-case pattern accepts *)

Lemma kebab_from_alnum a r :
  (forall c, has_char c a = true -> is_lower_alnum c = true) ->
  forall st, a <> "" \/ st = InGroup -> kebab_from st (a ++ r) = kebab_from InGroup r.
Proof.
  induction a as [|c a IH]; intros Ha st Hst.
  - destruct Hst as [Hst|Hst]; [congruence | now subst st].
  - cbn [append kebab_from].
    rewrite (Ha c) by (cbn [has_char]; now rewrite Ascii.eqb_refl).
    apply IH; [|now right]. intros x Hx. apply Ha. cbn [has_char]. rewrite Hx.
    apply orb_true_r.
Qed.

Lemma kebab_accepted s :
  kebab s ->
  forall st tail, tail = "" \/ tail = nl -> kebab_from st (s ++ tail) = true.
Proof.
  induction 1 as [g [Hne Hg]|g s [Hne Hg] Hs IH]; intros st tail Htail.
  - rewrite (kebab_from_alnum g tail Hg st (or_introl Hne)).
    destruct Htail; subst tail; reflexivity.
  - rewrite !append_assoc_str.
    rewrite (kebab_from_alnum g _ Hg st (or_introl Hne)).
    cbn [append kebab_from]. change (is_lower_alnum "-") with false. cbn iota.
    change (Ascii.eqb "-" "-") with true. cbn iota. now apply IH.
Qed.

Lemma kebab_prepend c s : is_lower_alnum c = true -> kebab s -> kebab (String c s).
Proof.
  intros Hc Hs. assert (Hg : forall g, kebab_group g -> kebab_group (String c g)).
  { intros g [_ Hg]. split; [discriminate|]. intros x Hx. cbn [has_char] in Hx.
    apply orb_true_iff in Hx. destruct Hx as [Hx|Hx]; [|now apply Hg].
    apply Ascii.eqb_eq in Hx. now subst x. }
  inversion Hs as [g Hgr|g s' Hgr Hs']; subst.
  - apply kebab_one. now apply Hg.
  - change (String c (g ++ "-" ++ s')) with (String c g ++ "-" ++ s').
    apply kebab_more; [now apply Hg | exact Hs'].
Qed.

Lemma kebab_group_single c : is_lower_alnum c = true -> kebab_group (String c "").
Proof.
  intros Hc. split; [discriminate|]. intros x Hx. cbn [has_char] in Hx.
  apply orb_true_iff in Hx. destruct Hx as [Hx|Hx]; [|discriminate].
  apply Ascii.eqb_eq in Hx. now subst x.
Qed.

Lemma kebab_rest_line c s : is_lower_alnum c = true -> kebab_rest s -> kebab_line (String c s).
Proof.
  intros Hc Hs. revert c Hc. induction Hs as [| |s Hl|c' s Hc' Hs IH]; intros c Hc.
  - left. now apply kebab_one, kebab_group_single.
  - right. exists (String c ""). split; [reflexivity|].
    now apply kebab_one, kebab_group_single.
  - destruct Hl as [Hk|[p [Hp Hk]]].
    + left. change (String c ("-" ++ s)) with (String c "" ++ "-" ++ s).
      apply kebab_more; [now apply kebab_group_single | exact Hk].
    + right. exists (String c "" ++ "-" ++ p). split.
      * subst s. reflexivity.
      * apply kebab_more; [now apply kebab_group_single | exact Hk].
  - destruct (IH c' Hc') as [Hk|[p [Hp Hk]]].
    + left. now apply kebab_prepend.
    + right. exists (String c p). split; [cbn [append]; now rewrite <- Hp|].
      now apply kebab_prepend.
Qed.

Lemma kebab_from_sound s :
  forall st, kebab_from st s = true ->
             match st with
             | InGroup => kebab_rest s
             | _ => kebab_line s
             end.
Proof.
  induction s as [|c r IH]; intros st H; cbn [kebab_from] in H.
  - destruct st; try discriminate. constructor.
  - destruct (is_lower_alnum c) eqn:Ec.
    + pose proof (IH InGroup H) as Hr. cbn iota in Hr.
      destruct st; [now apply kebab_rest_line | now constructor | now apply kebab_rest_line].
    + destruct st; try discriminate.
      destruct (Ascii.eqb c "-") eqn:Eh.
      * apply Ascii.eqb_eq in Eh. subst c. apply (rest_hyphen r). exact (IH AfterHyphen H).
      * apply andb_true_iff in H. destruct H as [Hc Hr].
        apply Ascii.eqb_eq in Hc. apply String.eqb_eq in Hr. subst c r. constructor.
Qed.

(** X17.  The names the name check accepts.  The pattern matches exactly
    the texts made of groups of lower-case letters and digits joined by
    single hyphens, and those texts followed by one line feed: the final
    [$] of the pattern lets a trailing line feed through.  A name of that
    second kind, when at most 64 characters long, passes the name check
    with the line feed echoed. *)
Theorem kebab_names_accepted :
  (forall s, match_kebab s = true <-> kebab_line s)
  /\ (forall fm p,
        name_of fm = YStr (p ++ nl) -> kebab p -> String.length (p ++ nl) <= 64 ->
        emits (check_name fm) [(FRONTMATTER, "Name valid", PASS, p ++ nl)]).
Proof.
  assert (Hiff : forall s, match_kebab s = true <-> kebab_line s).
  { intros s. unfold match_kebab. split.
    - intros H. exact (kebab_from_sound s GroupStart H).
    - intros [Hk|[p [Hp Hk]]].
      + rewrite <- (append_nil_r s). apply kebab_accepted; [exact Hk | now left].
      + subst s. apply kebab_accepted; [exact Hk | now right]. }
  split; [exact Hiff|].
  intros fm p Hname Hk Hlen. unfold check_name. fold (name_of fm). rewrite Hname.
  assert (Ht : truthy (YStr (p ++ nl)) = true).
  { cbn [truthy]. apply negb_true_iff, String.eqb_neq. destruct p; discriminate. }
  assert (Hm : match_kebab (p ++ nl) = true) by (apply Hiff; right; now exists p).
  rewrite Ht. cbn [py_str negb]. rewrite Hm. cbn [negb].
  apply Nat.ltb_ge in Hlen. rewrite Hlen. apply emits_record.
Qed.

(** A name with a trailing line feed passes. *)
Example name_with_line_feed_passes :
  emits (check_name [(YStr "name", YStr ("my-skill" ++ nl))])
        [(FRONTMATTER, "Name valid", PASS, "my-skill" ++ nl)].
Proof. intros rs. reflexivity. Qed.

(** ** Reference files that are looked at *)

(** X18.  Only the regular files of [references] whose name does not
    start with a dot can be reported as unlinked: hidden files,
    sub-directories, special files and dangling links are never reported,
    whatever the links.  When [references] is a regular file instead of a
    directory the block reports that there is no references directory. *)
Theorem references_ignore_hidden_entries (pkg : package) (rel : list (string * string)) :
  (forall children f,
      subdirectory "references" (entries pkg) = Some children ->
      In f (unlinked (map fst (visible_files children)) rel) ->
      hidden f = false
      /\ exists e x, In e children /\ regular_file e = Some (f, x))
  /\ (forall name x t,
        lookup "references" (entries pkg) = Some (File name x t) ->
        emits (check_references pkg rel)
              [("REFERENCES", "References directory", INFO, "No references/ directory")]).
Proof.
  split.
  - intros children f _ Hin. unfold unlinked in Hin. apply filter_In in Hin.
    destruct Hin as [Hin _]. apply in_map_iff in Hin. destruct Hin as [[n x] [Hn Hin]].
    simpl in Hn. subst n. apply visible_files_In in Hin.
    destruct Hin as [e [Hin [Hr Hh]]].
    split; [exact Hh | now exists e, x].
  - intros name x t Hfile. unfold check_references, subdirectory. rewrite Hfile.
    apply emits_record.
Qed.
